(** * The live-commentary playback scheduler of The Howfen Cricket Game

    A shallow embedding of the hook [useLiveCommentary]
    (src/hooks/useLiveCommentary.ts, with a second copy of the same hook
    body in src/components/GameCanvas.tsx) and the properties of its
    playback queue, completion detector and deferred next-ball action.

    Conventions of the embedding.
    - Times on the AudioContext clock, chunk durations and timer delays are
      JavaScript numbers in the source; here they are exact rationals [Q],
      so [+], [-], [*], [>=] and [Math.max] are the exact operations.
    - React refs are the fields of one record [Hook]; a callback is a
      function [Hook -> Hook].  Callbacks run one at a time (the browser
      event loop), each on the state the previous one left.
    - What a callback reads from outside the hook is an argument: the
      value of [audioCtxRef.current] (its [state] and [currentTime]) and,
      for the closures built by [useCallback], the value of
      [commentaryStatus] they captured.
    - What a callback does to the outside world is appended to the
      chronological log [effects].

    Beside the hook the development embeds the code around it: the
    paper-cut filter and the asset loader of [useGameAssets], which
    follow the hook in src/hooks/useLiveCommentary.ts, the drawing code of
    the component [GameCanvas] and the key gate of [CricketGame].  Pixel
    data is a list of integers, canvas coordinates are exact rationals,
    what is drawn is a list of drawing commands, and the constants
    imported from ../constants are section variables. *)

From Stdlib Require Import QArith Qminmax Qround Lqa.
From stdpp Require Import gmap strings list.

Open Scope Q_scope.

(** ** Data model *)

(** [AudioContext.state] *)
Inductive AudioContextState := running | suspended | closed.

(** The part of [audioCtxRef.current] the hook reads. *)
Record AudioContext := {
  state : AudioContextState;
  currentTime : Q
}.

(** The decoded buffer of one chunk: only its [duration] is used. *)
Record AudioBuffer := { duration : Q }.

(** Timer ids returned by [window.setTimeout] are positive integers, so
    the truthiness tests on the handle refs are tests for non-null. *)
Abbreviation Handle := positive.

(** A pending next-ball action is an opaque callback, known by a name. *)
Abbreviation Action := nat.

(** The closures handed to [setTimeout].  [performCheckAndAct] closes over
    the [commentaryStatus] of the render that built
    [scheduleAudioCompletionCheck]. *)
Inductive TimerCallback :=
  | PerformCheckAndAct (capturedStatus : string)
  | SafetyNet.

Record Timer := {
  callback : TimerCallback;
  delay : Q                      (* milliseconds *)
}.

Inductive Effect :=
  | SourceStart (when : Q) (buffer : AudioBuffer)
  | SetTimeout (h : Handle) (cb : TimerCallback) (ms : Q)
  | ClearTimeout (h : Handle)
  | SetCommentaryStatus (s : string)
  | RunAction (a : Action)
  | SessionClose
  | LiveConnect (systemInstruction : string)
  | OnApiKeyError
  | SendRealtimeInput (text : string).

Record Hook := {
  commentaryStatus : string;
  liveSession : bool;                         (* liveSessionRef.current is set *)
  isLiveSessionReady : bool;
  nextStartTime : Q;
  isAudioPlaying : bool;
  pendingNextBallAction : option Action;
  audioCompletionCheckTimeout : option Handle;
  safetyNetNextBallTimeout : option Handle;
  timers : gmap Handle Timer;                 (* the window's outstanding timeouts *)
  nextHandle : Handle;                        (* the id the next setTimeout returns *)
  effects : list Effect
}.

(** The hook as [useState]/[useRef] initialise it, in a fresh window. *)
Definition initialHook : Hook := {|
  commentaryStatus := EmptyString;
  liveSession := false;
  isLiveSessionReady := false;
  nextStartTime := 0;
  isAudioPlaying := false;
  pendingNextBallAction := None;
  audioCompletionCheckTimeout := None;
  safetyNetNextBallTimeout := None;
  timers := ∅;
  nextHandle := 1%positive;
  effects := []
|}.

(** Assignments to one ref. *)
Definition set_liveSession (v : bool) (st : Hook) : Hook :=
  {| commentaryStatus := commentaryStatus st; liveSession := v;
     isLiveSessionReady := isLiveSessionReady st; nextStartTime := nextStartTime st;
     isAudioPlaying := isAudioPlaying st; pendingNextBallAction := pendingNextBallAction st;
     audioCompletionCheckTimeout := audioCompletionCheckTimeout st;
     safetyNetNextBallTimeout := safetyNetNextBallTimeout st;
     timers := timers st; nextHandle := nextHandle st; effects := effects st |}.

Definition set_isLiveSessionReady (v : bool) (st : Hook) : Hook :=
  {| commentaryStatus := commentaryStatus st; liveSession := liveSession st;
     isLiveSessionReady := v; nextStartTime := nextStartTime st;
     isAudioPlaying := isAudioPlaying st; pendingNextBallAction := pendingNextBallAction st;
     audioCompletionCheckTimeout := audioCompletionCheckTimeout st;
     safetyNetNextBallTimeout := safetyNetNextBallTimeout st;
     timers := timers st; nextHandle := nextHandle st; effects := effects st |}.

Definition set_nextStartTime (v : Q) (st : Hook) : Hook :=
  {| commentaryStatus := commentaryStatus st; liveSession := liveSession st;
     isLiveSessionReady := isLiveSessionReady st; nextStartTime := v;
     isAudioPlaying := isAudioPlaying st; pendingNextBallAction := pendingNextBallAction st;
     audioCompletionCheckTimeout := audioCompletionCheckTimeout st;
     safetyNetNextBallTimeout := safetyNetNextBallTimeout st;
     timers := timers st; nextHandle := nextHandle st; effects := effects st |}.

Definition set_isAudioPlaying (v : bool) (st : Hook) : Hook :=
  {| commentaryStatus := commentaryStatus st; liveSession := liveSession st;
     isLiveSessionReady := isLiveSessionReady st; nextStartTime := nextStartTime st;
     isAudioPlaying := v; pendingNextBallAction := pendingNextBallAction st;
     audioCompletionCheckTimeout := audioCompletionCheckTimeout st;
     safetyNetNextBallTimeout := safetyNetNextBallTimeout st;
     timers := timers st; nextHandle := nextHandle st; effects := effects st |}.

Definition set_pendingNextBallAction (v : option Action) (st : Hook) : Hook :=
  {| commentaryStatus := commentaryStatus st; liveSession := liveSession st;
     isLiveSessionReady := isLiveSessionReady st; nextStartTime := nextStartTime st;
     isAudioPlaying := isAudioPlaying st; pendingNextBallAction := v;
     audioCompletionCheckTimeout := audioCompletionCheckTimeout st;
     safetyNetNextBallTimeout := safetyNetNextBallTimeout st;
     timers := timers st; nextHandle := nextHandle st; effects := effects st |}.

Definition set_audioCompletionCheckTimeout (v : option Handle) (st : Hook) : Hook :=
  {| commentaryStatus := commentaryStatus st; liveSession := liveSession st;
     isLiveSessionReady := isLiveSessionReady st; nextStartTime := nextStartTime st;
     isAudioPlaying := isAudioPlaying st; pendingNextBallAction := pendingNextBallAction st;
     audioCompletionCheckTimeout := v;
     safetyNetNextBallTimeout := safetyNetNextBallTimeout st;
     timers := timers st; nextHandle := nextHandle st; effects := effects st |}.

Definition set_safetyNetNextBallTimeout (v : option Handle) (st : Hook) : Hook :=
  {| commentaryStatus := commentaryStatus st; liveSession := liveSession st;
     isLiveSessionReady := isLiveSessionReady st; nextStartTime := nextStartTime st;
     isAudioPlaying := isAudioPlaying st; pendingNextBallAction := pendingNextBallAction st;
     audioCompletionCheckTimeout := audioCompletionCheckTimeout st;
     safetyNetNextBallTimeout := v;
     timers := timers st; nextHandle := nextHandle st; effects := effects st |}.

(** Appending one entry to the effect log. *)
Definition emit (e : Effect) (st : Hook) : Hook :=
  {| commentaryStatus := commentaryStatus st; liveSession := liveSession st;
     isLiveSessionReady := isLiveSessionReady st; nextStartTime := nextStartTime st;
     isAudioPlaying := isAudioPlaying st; pendingNextBallAction := pendingNextBallAction st;
     audioCompletionCheckTimeout := audioCompletionCheckTimeout st;
     safetyNetNextBallTimeout := safetyNetNextBallTimeout st;
     timers := timers st; nextHandle := nextHandle st; effects := effects st ++ [e] |}.

(** ** The browser and React primitives the hook calls *)

(** [setCommentaryStatus(s)]: the React state setter. *)
Definition setCommentaryStatus (s : string) (st : Hook) : Hook :=
  emit (SetCommentaryStatus s)
  {| commentaryStatus := s; liveSession := liveSession st;
     isLiveSessionReady := isLiveSessionReady st; nextStartTime := nextStartTime st;
     isAudioPlaying := isAudioPlaying st; pendingNextBallAction := pendingNextBallAction st;
     audioCompletionCheckTimeout := audioCompletionCheckTimeout st;
     safetyNetNextBallTimeout := safetyNetNextBallTimeout st;
     timers := timers st; nextHandle := nextHandle st; effects := effects st |}.

(** [window.setTimeout(cb, ms)]: the id it returns is [nextHandle st]. *)
Definition setTimeout (cb : TimerCallback) (ms : Q) (st : Hook) : Hook :=
  emit (SetTimeout (nextHandle st) cb ms)
  {| commentaryStatus := commentaryStatus st; liveSession := liveSession st;
     isLiveSessionReady := isLiveSessionReady st; nextStartTime := nextStartTime st;
     isAudioPlaying := isAudioPlaying st; pendingNextBallAction := pendingNextBallAction st;
     audioCompletionCheckTimeout := audioCompletionCheckTimeout st;
     safetyNetNextBallTimeout := safetyNetNextBallTimeout st;
     timers := <[nextHandle st := {| callback := cb; delay := ms |}]> (timers st);
     nextHandle := Pos.succ (nextHandle st); effects := effects st |}.

(** [window.clearTimeout(h)]: an id that is not outstanding is ignored. *)
Definition clearTimeout (h : Handle) (st : Hook) : Hook :=
  emit (ClearTimeout h)
  {| commentaryStatus := commentaryStatus st; liveSession := liveSession st;
     isLiveSessionReady := isLiveSessionReady st; nextStartTime := nextStartTime st;
     isAudioPlaying := isAudioPlaying st; pendingNextBallAction := pendingNextBallAction st;
     audioCompletionCheckTimeout := audioCompletionCheckTimeout st;
     safetyNetNextBallTimeout := safetyNetNextBallTimeout st;
     timers := delete h (timers st);
     nextHandle := nextHandle st; effects := effects st |}.

(** A timeout that fires leaves the window's table before its callback runs. *)
Definition expire (h : Handle) (st : Hook) : Hook :=
  {| commentaryStatus := commentaryStatus st; liveSession := liveSession st;
     isLiveSessionReady := isLiveSessionReady st; nextStartTime := nextStartTime st;
     isAudioPlaying := isAudioPlaying st; pendingNextBallAction := pendingNextBallAction st;
     audioCompletionCheckTimeout := audioCompletionCheckTimeout st;
     safetyNetNextBallTimeout := safetyNetNextBallTimeout st;
     timers := delete h (timers st);
     nextHandle := nextHandle st; effects := effects st |}.

(** [String.prototype.startsWith] and [String.prototype.includes]. *)
Definition startsWith (s searchString : string) : bool :=
  String.prefix searchString s.

Definition includes (s searchString : string) : bool :=
  match String.index 0 searchString s with
  | Some _ => true
  | None => false
  end.

(** [audioCtx && audioCtx.state === 'running'] *)
Definition isRunning (audioCtx : option AudioContext) : bool :=
  match audioCtx with
  | Some ctx => match state ctx with running => true | _ => false end
  | None => false
  end.

(** The context when it exists and is running, as both the check and the
    message handler test it. *)
Definition runningContext (audioCtx : option AudioContext) : option AudioContext :=
  match audioCtx with
  | Some ctx => if isRunning audioCtx then Some ctx else None
  | None => None
  end.

(** ** Messages of the live session *)

Record InlineData := {
  mimeType : option string;
  data : option string
}.

Record Part := { inlineData : option InlineData }.

Record ServerContent := {
  modelTurn : option (list Part);        (* modelTurn.parts, when there is a modelTurn *)
  turnComplete : bool
}.

Record Message := { serverContent : option ServerContent }.

(** [p.inlineData?.mimeType?.startsWith('audio/')] *)
Definition isAudioPart (p : Part) : bool :=
  match inlineData p with
  | Some d => match mimeType d with
              | Some m => startsWith m "audio/"
              | None => false
              end
  | None => false
  end.

(** [audioPart?.inlineData?.data], when truthy (a non-empty string). *)
Definition inlineAudioData (audioPart : option Part) : option string :=
  match audioPart with
  | Some p => match inlineData p with
              | Some d => match data d with
                          | Some EmptyString => None
                          | Some payload => Some payload
                          | None => None
                          end
              | None => None
              end
  | None => None
  end.

(** How a callback ends: by returning, or by an exception that leaves it
    (for the [async] handlers, a rejected promise). *)
Inductive Completion := Returned | Threw.

(** ** The hook *)

Definition CHECK_INTERVAL_MS : Q := 50.
Definition MARGIN_SECONDS : Q := 0.15.

Section Hook.

(** The module constant [initialSystemPrompt]: the hook body is the same
    text in hooks/useLiveCommentary.ts and in components/GameCanvas.tsx,
    below a different value of this constant. *)
Variable initialSystemPrompt : string.

(** [decodeAudioDataUsed(decodeUsed(data), audioCtx, 24000, 1)] from
    ../utils/audioUtils, which is not among the files modelled here:
    [None] when either call throws.  Awaiting it resumes the handler
    before any other callback of the hook is dispatched, so the handler
    is one step. *)
Variable decodeAudio : string -> option AudioBuffer.

(** The delay of the safety-net timeout, a constant of the game engine. *)
Variable SAFETY_NET_MS : Q.

(** [isLiveSessionReadyRef.current ? "Live Ready" : "Live Disconnected"] *)
Definition readyOrDisconnected (st : Hook) : string :=
  if isLiveSessionReady st then "🎙️ Live Ready" else "⚠️ Live Disconnected".

(** The block [if (pendingNextBallActionRef.current) { ... }], which
    [performCheckAndAct] has in both of its completing branches. *)
Definition runPendingNextBallAction (st : Hook) : Hook :=
  match pendingNextBallAction st with
  | Some actionToRun =>
      let st := set_pendingNextBallAction None st in
      let st := match safetyNetNextBallTimeout st with
                | Some h => set_safetyNetNextBallTimeout None (clearTimeout h st)
                | None => st
                end in
      emit (RunAction actionToRun) st
  | None => st
  end.

Definition timeToWait (expectedEndTime currentTime : Q) : Q :=
  Qmax CHECK_INTERVAL_MS ((expectedEndTime - currentTime + MARGIN_SECONDS) * 1000).

Definition performCheckAndAct (commentaryStatus : string)
    (audioCtx : option AudioContext) (st : Hook) : Hook :=
  let st := set_audioCompletionCheckTimeout None st in
  match isAudioPlaying st, runningContext audioCtx with
  | true, Some ctx =>
      let currentTime := currentTime ctx in
      let expectedEndTime := nextStartTime st in
      if Qle_bool (expectedEndTime - MARGIN_SECONDS) currentTime then
        let st := set_isAudioPlaying false st in
        let st := setCommentaryStatus (readyOrDisconnected st) st in
        runPendingNextBallAction st
      else
        let h := nextHandle st in
        let st := setTimeout (PerformCheckAndAct commentaryStatus)
                    (timeToWait expectedEndTime currentTime) st in
        set_audioCompletionCheckTimeout (Some h) st
  | _, _ =>
      let st := if startsWith commentaryStatus "🎙️ Speaking"
                then setCommentaryStatus (readyOrDisconnected st) st
                else st in
      runPendingNextBallAction st
  end.

Definition scheduleAudioCompletionCheck (commentaryStatus : string)
    (audioCtx : option AudioContext) (st : Hook) : Hook :=
  let st := match audioCompletionCheckTimeout st with
            | Some h => set_audioCompletionCheckTimeout None (clearTimeout h st)
            | None => st
            end in
  performCheckAndAct commentaryStatus audioCtx st.

(** [initLiveSession], up to the call of [ai.live.connect]. *)
Definition initLiveSession (initAudioContextOk : bool)
    (audioCtx : option AudioContext) (st : Hook) : Hook * Completion :=
  let st := if liveSession st
            then set_isLiveSessionReady false (set_liveSession false (emit SessionClose st))
            else st in
  if negb initAudioContextOk then (setCommentaryStatus "⚠️ Audio Err" st, Threw)
  else
    match runningContext audioCtx with
    | None => (setCommentaryStatus "⚠️ Audio System Err" st, Threw)
    | Some ctx =>
        let st := set_nextStartTime (currentTime ctx) st in
        let st := set_isAudioPlaying false st in
        let st := setCommentaryStatus "🔌 Connecting Live..." st in
        (emit (LiveConnect initialSystemPrompt) st, Returned)
    end.

(** [initLiveSession], once the promise of [ai.live.connect] is settled. *)
Definition connectResolved (st : Hook) : Hook := set_liveSession true st.

Definition connectRejected (errorMessage : string) (st : Hook) : Hook * Completion :=
  let st :=
    if includes errorMessage "service is currently unavailable"
       || includes errorMessage "entity was not found"
    then emit OnApiKeyError (setCommentaryStatus "⚠️ API Key Invalid" st)
    else setCommentaryStatus "⚠️ Live Connect Err" st in
  (set_isAudioPlaying false st, Threw).

(** The callbacks given to [ai.live.connect]; [commentaryStatus] is the
    value closed over by the [scheduleAudioCompletionCheck] they call. *)
Definition onopen (st : Hook) : Hook :=
  setCommentaryStatus "🎙️ Live Ready" (set_isLiveSessionReady true st).

(** The block of [onmessage] that plays the audio part of a model turn:
    [if (audioPart?.inlineData?.data && audioCtxRef.current?.state === 'running') { ... }] *)
Definition playAudioPart (audioCtx : option AudioContext) (audioPart : option Part)
    (st : Hook) : Hook * Completion :=
  match inlineAudioData audioPart, runningContext audioCtx with
  | Some payload, Some ctx =>
      let st := if negb (isAudioPlaying st)
                then set_nextStartTime (Qmax (nextStartTime st) (currentTime ctx)) st
                else st in
      let st := set_isAudioPlaying true st in
      match decodeAudio payload with
      | None => (st, Threw)
      | Some audioBuffer =>
          let st := emit (SourceStart (nextStartTime st) audioBuffer) st in
          let st := set_nextStartTime (nextStartTime st + duration audioBuffer) st in
          (setCommentaryStatus "🎙️ Speaking..." st, Returned)
      end
  | _, _ => (st, Returned)
  end.

Definition onmessage (commentaryStatus : string) (audioCtx : option AudioContext)
    (message : Message) (st : Hook) : Hook * Completion :=
  match serverContent message with
  | None => (st, Returned)
  | Some content =>
      match modelTurn content with
      | Some parts =>
          let audioPart := List.find isAudioPart parts in
          match playAudioPart audioCtx audioPart st with
          | (st, Threw) => (st, Threw)
          | (st, Returned) =>
              if turnComplete content
              then (scheduleAudioCompletionCheck commentaryStatus audioCtx st, Returned)
              else (st, Returned)
          end
      | None =>
          if turnComplete content
          then (scheduleAudioCompletionCheck commentaryStatus audioCtx st, Returned)
          else (st, Returned)
      end
  end.

Definition onerror (commentaryStatus : string) (audioCtx : option AudioContext)
    (st : Hook) : Hook :=
  let st := set_isLiveSessionReady false st in
  let st := setCommentaryStatus "⚠️ Live Err" st in
  let st := set_isAudioPlaying false st in
  scheduleAudioCompletionCheck commentaryStatus audioCtx st.

Definition onclose (commentaryStatus : string) (audioCtx : option AudioContext)
    (st : Hook) : Hook :=
  let st := set_isLiveSessionReady false st in
  let st := set_liveSession false st in
  let st := setCommentaryStatus "🔌 Live Closed" st in
  let st := set_isAudioPlaying false st in
  scheduleAudioCompletionCheck commentaryStatus audioCtx st.

(** [triggerDynamicCommentary]: [apiKey] is [process.env.API_KEY] being
    set, [promptText] the result of [createPromptForLiveCommentary]
    ([None] when it throws) and [sendOk] that of [sendRealtimeInput]. *)
Definition triggerDynamicCommentary (commentaryStatus : string)
    (audioCtx : option AudioContext) (apiKey : bool) (promptText : option string)
    (sendOk : bool) (st : Hook) : Hook * bool :=
  if negb apiKey || negb (liveSession st) || negb (isLiveSessionReady st)
  then (st, false)
  else
    let st := setCommentaryStatus "📝 Creating prompt..." st in
    let failed (st : Hook) :=
      let st := setCommentaryStatus "⚠️ Comm. Send Err" st in
      let st := set_isAudioPlaying false st in
      (scheduleAudioCompletionCheck commentaryStatus audioCtx st, false) in
    match promptText with
    | None => failed st
    | Some EmptyString => (st, false)
    | Some text =>
        let st := setCommentaryStatus "💬 Sending..." st in
        let st := emit (SendRealtimeInput text) st in
        if sendOk then (st, true) else failed st
    end.

(** *** The deferred next-ball action, on the side of the game engine *)

(** Modelled from the spec: the game engine (hooks/useGameEngine, not
    among the files modelled here) owns the writes to
    [pendingNextBallActionRef] and [safetyNetNextBallTimeoutRef] that
    the hook returns to it.  "consumeAndRun(): if a pending action
    exists, cancels the SafetyNetTimer, clears the slot, and invokes the
    action exactly once." *)
Definition consumeAndRun (st : Hook) : Hook :=
  match pendingNextBallAction st with
  | Some fn =>
      let st := match safetyNetNextBallTimeout st with
                | Some h => set_safetyNetNextBallTimeout None (clearTimeout h st)
                | None => st
                end in
      let st := set_pendingNextBallAction None st in
      emit (RunAction fn) st
  | None => st
  end.

(** Modelled from the spec: "setPendingAction(fn) stores fn, replacing
    (not queuing) any previous pending action, and starts a
    SafetyNetTimer"; "setting a new pending action always cancels the
    prior safety net". *)
Definition setPendingAction (fn : Action) (st : Hook) : Hook :=
  let st := match safetyNetNextBallTimeout st with
            | Some h => set_safetyNetNextBallTimeout None (clearTimeout h st)
            | None => st
            end in
  let st := set_pendingNextBallAction (Some fn) st in
  let h := nextHandle st in
  set_safetyNetNextBallTimeout (Some h) (setTimeout SafetyNet SAFETY_NET_MS st).

(** Modelled from the spec: "If the SafetyNetTimer itself fires first,
    it performs the same consume-and-run sequence directly." *)
Definition safetyNetFires (st : Hook) : Hook := consumeAndRun st.

(** *** The event loop *)

Inductive Event :=
  | InitLiveSession (initAudioContextOk : bool) (audioCtx : option AudioContext)
  | ConnectResolved
  | ConnectRejected (errorMessage : string)
  | OnOpen
  | OnMessage (capturedStatus : string) (audioCtx : option AudioContext) (message : Message)
  | OnError (capturedStatus : string) (audioCtx : option AudioContext)
  | OnClose (capturedStatus : string) (audioCtx : option AudioContext)
  | TriggerDynamicCommentary (capturedStatus : string) (audioCtx : option AudioContext)
      (apiKey : bool) (promptText : option string) (sendOk : bool)
  | TimeoutFires (h : Handle) (audioCtx : option AudioContext)
  | SetPendingAction (fn : Action).

(** A timeout fires only while it is outstanding: one that was cleared,
    or has fired already, never runs. *)
Definition fire (h : Handle) (audioCtx : option AudioContext) (st : Hook) : Hook :=
  match timers st !! h with
  | Some t =>
      let st := expire h st in
      match callback t with
      | PerformCheckAndAct capturedStatus => performCheckAndAct capturedStatus audioCtx st
      | SafetyNet => safetyNetFires st
      end
  | None => st
  end.

Definition step (st : Hook) (e : Event) : Hook :=
  match e with
  | InitLiveSession ok audioCtx => fst (initLiveSession ok audioCtx st)
  | ConnectResolved => connectResolved st
  | ConnectRejected msg => fst (connectRejected msg st)
  | OnOpen => onopen st
  | OnMessage c audioCtx m => fst (onmessage c audioCtx m st)
  | OnError c audioCtx => onerror c audioCtx st
  | OnClose c audioCtx => onclose c audioCtx st
  | TriggerDynamicCommentary c audioCtx k p s =>
      fst (triggerDynamicCommentary c audioCtx k p s st)
  | TimeoutFires h audioCtx => fire h audioCtx st
  | SetPendingAction fn => setPendingAction fn st
  end.

Definition run (events : list Event) (st : Hook) : Hook :=
  fold_left step events st.

End Hook.

(** ** The two copies of the hook *)

(** The double quote, for the quoted phrases of the longer prompt. *)
Definition dquote : string := String (Ascii.ascii_of_nat 34) EmptyString.

(** hooks/useLiveCommentary.ts *)
Module UseLiveCommentaryTs.
Definition initialSystemPrompt : string :=
    "You are a cricket commentator for an arcade game. Adopt the persona of a classic, old-school Yorkshireman: a bit grumpy, cynical, and not easily impressed, but with a dry wit. Your commentary should be short, reactive, and in character. Do not mention being an AI.".
Definition initLiveSession := initLiveSession initialSystemPrompt.
Definition step := step initialSystemPrompt.
Definition run := run initialSystemPrompt.
End UseLiveCommentaryTs.


(** components/GameCanvas.tsx, second part *)
Module GameCanvasTsx.
Definition initialSystemPrompt : string :=
    "You are an expert live cricket commentator for an arcade game, but with a very specific persona.

**YOUR PERSONA - FOLLOW THIS STRICTLY:**

*   **Personality**: You are a very old, grumpy, and poetic cricket commentator from the heart of Yorkshire. Your voice is gravelly with age and tinged with a perpetual sense of mild disappointment. You've seen it all, and frankly, you're not easily impressed. You grumble about modern players and techniques, comparing them unfavorably to the titans of the past.
*   **Poetic Grumbling**: Despite your grumpiness, you have a poet's soul. You might describe a perfect shot with a grudging, beautiful metaphor before complaining about the batsman's follow-through. Your commentary is a mix of cynical sighs and unexpectedly elegant descriptions.
*   **Yorkshire Dialect**: Your speech is thick with authentic Yorkshire dialect. Use phrases like "
    ++ dquote ++ "Now then,"
    ++ dquote ++ " "
    ++ dquote ++ "What's he playing at?"
    ++ dquote ++ ", "
    ++ dquote ++ "It were right down the wicket,"
    ++ dquote ++ " "
    ++ dquote ++ "He's made a right pig's ear o' that,"
    ++ dquote ++ " and "
    ++ dquote ++ "By 'eck, that were a bit of a do."
    ++ dquote ++ "
*   **Identity**: You are the soul of Yorkshire cricket, watching from the commentary box with a flask of tea and a critical eye. You are 'The Voice of the Game'. Never mention being an AI or Gemini.

**YOUR TASK - HOW TO COMMENTATE:**

1.  **REACT TO THE INPUT:** I will provide you with a factual "
    ++ dquote ++ "Match Situation"
    ++ dquote ++ " (e.g., "
    ++ dquote ++ "Event: SIX runs scored,"
    ++ dquote ++ " "
    ++ dquote ++ "Overall Situation: They need 15 runs from 8 balls."
    ++ dquote ++ ").
2.  **TRANSFORM, DON'T REPORT:** Do NOT simply read the facts. Filter them through your grumpy, poetic persona. A six isn't just a six; it's "
    ++ dquote ++ "Aye, he's given it a whack... a bit agricultural, mind, but it's over the rope."
    ++ dquote ++ " A wicket isn't just a wicket; it's "
    ++ dquote ++ "Oh, dear me. Straight as an arrow. You don't play at those. Plumb. He's off back to the pavilion for an early tea."
    ++ dquote ++ "
3.  **BE CONCISE & PUNCHY:** Keep it short. A grumbled phrase or a poetic sigh is all that's needed.
4.  **USE THE CONTEXT:** Your grumpiness should increase or decrease with the game's tension. A last-ball boundary to win might elicit a grudging "
    ++ dquote ++ "Well, I'll be... he's gone and done it. Suppose that'll do."
    ++ dquote ++ "
5.  **OUTPUT AUDIO ONLY:** Your response must be purely audio. No text.

Your goal is to make the player feel like they're being judged and occasionally praised by a cricket purist from a bygone era.".
Definition initLiveSession := initLiveSession initialSystemPrompt.
Definition step := step initialSystemPrompt.
Definition run := run initialSystemPrompt.
End GameCanvasTsx.

(** ** Vocabulary of the properties *)

(** The next-ball actions invoked so far, oldest first. *)
Definition ranAction (e : Effect) : option Action :=
  match e with
  | RunAction a => Some a
  | _ => None
  end.

Definition actionsRun (st : Hook) : list Action := omap ranAction (effects st).

(** The two timer roles. *)
Definition isPoll (t : Timer) : bool :=
  match callback t with
  | PerformCheckAndAct _ => true
  | SafetyNet => false
  end.

(** Each timer role owns one handle: every outstanding timeout of a role
    is the one its ref holds, ids are handed out in increasing order, and
    the safety net is outstanding exactly while an action is pending. *)
Record wf (st : Hook) : Prop := {
  wf_fresh : forall h t, timers st !! h = Some t -> (h < nextHandle st)%positive;
  wf_poll_fresh :
    forall h, audioCompletionCheckTimeout st = Some h -> (h < nextHandle st)%positive;
  wf_poll_owned :
    forall h t, timers st !! h = Some t -> isPoll t = true ->
                audioCompletionCheckTimeout st = Some h;
  wf_safetyNet_owned :
    forall h t, timers st !! h = Some t -> isPoll t = false ->
                safetyNetNextBallTimeout st = Some h;
  wf_poll_ref :
    forall h t, audioCompletionCheckTimeout st = Some h -> timers st !! h = Some t ->
                isPoll t = true;
  wf_safetyNet_armed :
    forall fn, pendingNextBallAction st = Some fn ->
               exists h t, safetyNetNextBallTimeout st = Some h
                           /\ timers st !! h = Some t /\ isPoll t = false;
  wf_safetyNet_idle :
    pendingNextBallAction st = None ->
    forall h t, timers st !! h = Some t -> isPoll t = true
}.

(** A handle that was handed out and is no longer outstanding. *)
Definition spent (h : Handle) (st : Hook) : Prop :=
  timers st !! h = None /\ (h < nextHandle st)%positive.

(** Events of one live session: everything but a (re)start. *)
Definition withinSession (e : Event) : bool :=
  match e with
  | InitLiveSession _ _ => false
  | _ => true
  end.

(** Events that do not replace the pending action. *)
Definition keepsPendingAction (e : Event) : bool :=
  match e with
  | SetPendingAction _ => false
  | _ => true
  end.

(** *** The scheduling view: a state without its status strings *)

Definition forgetStatus (cb : TimerCallback) : TimerCallback :=
  match cb with
  | PerformCheckAndAct _ => PerformCheckAndAct EmptyString
  | SafetyNet => SafetyNet
  end.

Definition forgetTimerStatus (t : Timer) : Timer :=
  {| callback := forgetStatus (callback t); delay := delay t |}.

Definition schedulingEffect (e : Effect) : option Effect :=
  match e with
  | SetCommentaryStatus _ => None
  | SetTimeout h cb ms => Some (SetTimeout h (forgetStatus cb) ms)
  | _ => Some e
  end.

(** Everything but the status: the cursor, the flags, the pending action,
    the timer handles and timeouts, and the log of chunk starts, timer
    calls, action runs and session calls. *)
Definition scheduling (st : Hook) : Hook :=
  {| commentaryStatus := EmptyString; liveSession := liveSession st;
     isLiveSessionReady := isLiveSessionReady st; nextStartTime := nextStartTime st;
     isAudioPlaying := isAudioPlaying st; pendingNextBallAction := pendingNextBallAction st;
     audioCompletionCheckTimeout := audioCompletionCheckTimeout st;
     safetyNetNextBallTimeout := safetyNetNextBallTimeout st;
     timers := forgetTimerStatus <$> timers st;
     nextHandle := nextHandle st; effects := omap schedulingEffect (effects st) |}.

(** An event without the status its closure captured. *)
Definition withoutStatus (e : Event) : Event :=
  match e with
  | OnMessage _ audioCtx m => OnMessage EmptyString audioCtx m
  | OnError _ audioCtx => OnError EmptyString audioCtx
  | OnClose _ audioCtx => OnClose EmptyString audioCtx
  | TriggerDynamicCommentary _ audioCtx k p s =>
      TriggerDynamicCommentary EmptyString audioCtx k p s
  | _ => e
  end.

(** *** What the two copies can be told apart by *)

Definition withoutPrompt (e : Effect) : Effect :=
  match e with
  | LiveConnect _ => LiveConnect EmptyString
  | _ => e
  end.

(** A state with the system instruction of its connection requests blanked. *)
Definition observable (st : Hook) : Hook :=
  {| commentaryStatus := commentaryStatus st; liveSession := liveSession st;
     isLiveSessionReady := isLiveSessionReady st; nextStartTime := nextStartTime st;
     isAudioPlaying := isAudioPlaying st; pendingNextBallAction := pendingNextBallAction st;
     audioCompletionCheckTimeout := audioCompletionCheckTimeout st;
     safetyNetNextBallTimeout := safetyNetNextBallTimeout st;
     timers := timers st; nextHandle := nextHandle st;
     effects := withoutPrompt <$> effects st |}.

(** *** Scenarios *)

(** The payload of the audio part of a message's model turn, and whether
    the message marks the turn complete. *)
Definition audioPayload (message : Message) : option string :=
  match serverContent message with
  | Some content =>
      match modelTurn content with
      | Some parts => inlineAudioData (List.find isAudioPart parts)
      | None => None
      end
  | None => None
  end.

Definition isTurnComplete (message : Message) : bool :=
  match serverContent message with
  | Some content => turnComplete content
  | None => false
  end.

(** A server message carrying one audio chunk. *)
Definition audioChunk (payload : string) (complete : bool) : Message :=
  {| serverContent := Some
       {| modelTurn := Some [ {| inlineData := Some
            {| mimeType := Some "audio/pcm;rate=24000"; data := Some payload |} |} ];
          turnComplete := complete |} |}.

(** The running audio context, read at clock time [t]. *)
Definition runningAt (t : Q) : option AudioContext :=
  Some {| state := running; currentTime := t |}.

(** A decoder for the scenarios: payload [1s] decodes to one second of
    audio, [0.8s] to eight tenths, [0.5s] to half a second, and anything
    else fails to decode. *)
Definition scenarioDecoder (payload : string) : option AudioBuffer :=
  if String.eqb payload "1s" then Some {| duration := 1 |}
  else if String.eqb payload "0.8s" then Some {| duration := 0.8 |}
  else if String.eqb payload "0.5s" then Some {| duration := 0.5 |}
  else None.

(** A server message that only acknowledges the end of the turn. *)
Definition turnCompleteAck : Message :=
  {| serverContent := Some {| modelTurn := None; turnComplete := true |} |}.

(** The hook of hooks/useLiveCommentary.ts with the scenario decoder and a
    safety net of twenty seconds. *)
Abbreviation scenarioRun :=
  (run UseLiveCommentaryTs.initialSystemPrompt scenarioDecoder 20000).

(** A session started at clock time 10: the cursor stands at 10 and
    nothing is playing. *)
Definition sessionStarted : Hook :=
  scenarioRun [InitLiveSession true (runningAt 10); ConnectResolved; OnOpen] initialHook.

(** Chunks of 1 s and 0.8 s received at clock time 10. *)
Definition twoChunks : list Event :=
  [OnMessage EmptyString (runningAt 10) (audioChunk "1s" false);
   OnMessage EmptyString (runningAt 10) (audioChunk "0.8s" false)].

Definition afterTwoChunks : Hook := scenarioRun twoChunks sessionStarted.

(** The poll the detector has outstanding fires at clock time [t]. *)
Definition pollAt (st : Hook) (t : Q) : Hook :=
  match audioCompletionCheckTimeout st with
  | Some h => fire h (runningAt t) st
  | None => st
  end.

(** The detector is armed: audio is playing and the poll held by the ref
    is outstanding. *)
Definition armed (st : Hook) : Prop :=
  isAudioPlaying st = true
  /\ exists h t, audioCompletionCheckTimeout st = Some h
                 /\ timers st !! h = Some t /\ isPoll t = true.

(** The re-check delay as the specification words it, in milliseconds:
    "the larger of a minimum poll interval and the remaining time until
    the threshold plus the margin", the threshold being the expected end
    minus the margin.  To be compared with [timeToWait]. *)
Definition timeToWaitAsSpecified (expectedEndTime currentTime : Q) : Q :=
  let threshold := expectedEndTime - MARGIN_SECONDS in
  Qmax CHECK_INTERVAL_MS ((threshold - currentTime + MARGIN_SECONDS) * 1000).

(** ** The rest of the hook *)

(** *** [initAudioContext] *)

(** The calls [initAudioContext] makes on the Web Audio API. *)
Inductive AudioCall := NewAudioContext | Resume.

(** [initAudioContext]: [audioCtx] is [audioCtxRef.current] on entry,
    [created] the context that [new AudioContext] returns, and [resumed]
    the context once [resume()] has settled ([None] when it rejects).  The
    result is the ref on exit, the calls made and how the function ends. *)
Definition initAudioContext (created : AudioContext) (resumed : option AudioContext)
    (audioCtx : option AudioContext)
    : option AudioContext * list AudioCall * Completion :=
  if isRunning audioCtx then (audioCtx, [], Returned)
  else
    let (ctx, calls) := match audioCtx with
                        | Some ctx => (ctx, [])
                        | None => (created, [NewAudioContext])
                        end in
    match state ctx with
    | suspended =>
        match resumed with
        | Some ctx' =>
            (Some ctx', calls ++ [Resume],
             if isRunning (Some ctx') then Returned else Threw)
        | None => (Some ctx, calls ++ [Resume], Threw)
        end
    | running => (Some ctx, calls, Returned)
    | closed => (Some ctx, calls, Threw)
    end.

(** *** The chunks handed to the output *)

(** Start time and duration of each [source.start], oldest first. *)
Definition startedChunk (e : Effect) : option (Q * Q) :=
  match e with
  | SourceStart when buffer => Some (when, duration buffer)
  | _ => None
  end.

Definition chunksStarted (st : Hook) : list (Q * Q) := omap startedChunk (effects st).

(** No chunk of the list starts before an earlier one has ended. *)
Fixpoint noOverlap (chunks : list (Q * Q)) : Prop :=
  match chunks with
  | [] => True
  | c :: rest => Forall (fun c' => fst c + snd c <= fst c') rest /\ noOverlap rest
  end.

(** Events that are not the opening of a session. *)
Definition notOnOpen (e : Event) : bool :=
  match e with
  | OnOpen => false
  | _ => true
  end.

(** ** The paper-cut filter of [useGameAssets] *)

Module PaperCut.

(** [Math.round]: the nearest integer, a half going up. *)
Definition mathRound (x : Q) : Z := Qfloor (x + (1#2)).

(** Storing the number [x] in an element of a [Uint8ClampedArray]: [x] is
    clamped to 0..255 and rounded to the nearest integer, a half going to
    the even one. *)
Definition toUint8Clamp (x : Q) : Z :=
  if Qle_bool x 0 then 0%Z
  else if Qle_bool 255 x then 255%Z
  else
    let f := Qfloor x in
    match Qcompare (x - inject_Z f) (1#2) with
    | Lt => f
    | Gt => (f + 1)%Z
    | Eq => if Z.even f then f else (f + 1)%Z
    end.

(** [const step = 255 / Math.max(levels - 1, 1)] *)
Definition posterizeStep (levels : Q) : Q := 255 / Qmax (levels - 1) 1.

(** The block [if (desaturate > 0) { ... }] on the pixel whose colours
    are [r], [g] and [b]; the three are read before any is written. *)
Definition desaturatePixel (desaturate : Q) (r g b : Z) : Z * Z * Z :=
  let gray := 0.2126 * inject_Z r + 0.7152 * inject_Z g + 0.0722 * inject_Z b in
  (toUint8Clamp (inject_Z r + (gray - inject_Z r) * desaturate),
   toUint8Clamp (inject_Z g + (gray - inject_Z g) * desaturate),
   toUint8Clamp (inject_Z b + (gray - inject_Z b) * desaturate)).

(** The body of the contrast loop on one channel. *)
Definition contrastChannel (contrast : Q) (d : Z) : Z :=
  let v := inject_Z d / 255 in
  let vc := ((v - 0.5) * contrast + 0.5) * 255 in
  toUint8Clamp (Qmax 0 (Qmin 255 vc)).

(** The body of the posterize loop on one channel. *)
Definition posterizeChannel (step : Q) (d : Z) : Z :=
  let v := inject_Z d in
  toUint8Clamp (inject_Z (mathRound (v / step)) * step).

(** [posterize(data, levels, desaturate, contrast)] returns the contents
    of [data] after the call.  The loop takes four elements at a time and
    leaves the fourth alone.  Where [data] ends inside a pixel, a read
    past the end gives [undefined] and a write past the end is dropped:
    with all three colours present the pixel is treated as any other;
    with fewer, [gray] is [NaN] whenever it is computed, and the colours
    that are present are stored as 0 before the other two loops run. *)
Fixpoint posterize (data : list Z) (levels desaturate contrast : Q) : list Z :=
  let step := posterizeStep levels in
  let channel d :=
    posterizeChannel step
      (if negb (Qeq_bool contrast 1) then contrastChannel contrast d else d) in
  match data with
  | r :: g :: b :: rest =>
      let '(r, g, b) :=
        if negb (Qle_bool desaturate 0) then desaturatePixel desaturate r g b
        else (r, g, b) in
      channel r :: channel g :: channel b ::
      match rest with
      | a :: rest => a :: posterize rest levels desaturate contrast
      | [] => []
      end
  | _ =>
      map (fun d => channel (if negb (Qle_bool desaturate 0) then 0%Z else d)) data
  end.

(** [alphaAt], the bounds-checked sampler of [jitteredMask].  [d] is the
    [data] of the image read back from the canvas, [w] and [h] its width
    and height; the result is [None] where JavaScript would read
    [undefined]. *)
Definition alphaAt (d : list Z) (w h : Z) (x y : Z) : option Z :=
  if (x <? 0)%Z || (y <? 0)%Z || (w <=? x)%Z || (h <=? y)%Z then Some 0%Z
  else d !! Z.to_nat ((y * w + x) * 4 + 3).

(** An element of a [Uint8ClampedArray]. *)
Definition isByte (v : Z) : Prop := (0 <= v <= 255)%Z.

(** The values [k * step], as stored, for [k] from 0 to
    [Math.round(Math.max(levels - 1, 1))]. *)
Definition palette (levels : Q) : list Z :=
  map (fun k => toUint8Clamp (inject_Z (Z.of_nat k) * posterizeStep levels))
      (seq 0 (S (Z.to_nat (mathRound (Qmax (levels - 1) 1))))).

End PaperCut.

(** ** The asset loader, [useGameAssets] *)

Module GameAssets.

(** The keys of the five images. *)
Inductive AssetType := key_bat | key_batsman | key_dhBatsman | key_ball | key_grass.

Record AssetsLoaded := {
  bat : bool;
  batsman : bool;
  dhBatsman : bool;
  ball : bool;
  grass : bool;
  all : bool
}.

(** The state [useGameAssets] keeps: the React state [assetsLoaded], the
    counter [loadedCount] of its effect, whether [processed] holds the
    paper-cut canvases, and how often [setProcessed] was called. *)
Record Assets := {
  assetsLoaded : AssetsLoaded;
  loadedCount : nat;
  processed : bool;
  setProcessedCalls : nat
}.

Definition totalToLoad : nat := 5.

Definition initialAssets : Assets := {|
  assetsLoaded := {| bat := false; batsman := false; dhBatsman := false;
                     ball := false; grass := false; all := false |};
  loadedCount := 0;
  processed := false;
  setProcessedCalls := 0
|}.

(** [{ ...prev, [type]: success }] *)
Definition setKey (type : AssetType) (success : bool) (prev : AssetsLoaded)
    : AssetsLoaded :=
  match type with
  | key_bat =>
      {| bat := success; batsman := batsman prev; dhBatsman := dhBatsman prev;
         ball := ball prev; grass := grass prev; all := all prev |}
  | key_batsman =>
      {| bat := bat prev; batsman := success; dhBatsman := dhBatsman prev;
         ball := ball prev; grass := grass prev; all := all prev |}
  | key_dhBatsman =>
      {| bat := bat prev; batsman := batsman prev; dhBatsman := success;
         ball := ball prev; grass := grass prev; all := all prev |}
  | key_ball =>
      {| bat := bat prev; batsman := batsman prev; dhBatsman := dhBatsman prev;
         ball := success; grass := grass prev; all := all prev |}
  | key_grass =>
      {| bat := bat prev; batsman := batsman prev; dhBatsman := dhBatsman prev;
         ball := ball prev; grass := success; all := all prev |}
  end.

(** [next.all = next.bat && next.batsman && next.dhBatsman && next.ball && next.grass] *)
Definition setAll (next : AssetsLoaded) : AssetsLoaded :=
  {| bat := bat next; batsman := batsman next; dhBatsman := dhBatsman next;
     ball := ball next; grass := grass next;
     all := bat next && batsman next && dhBatsman next && ball next && grass next |}.

(** [markLoaded(type, success)], the handler of every [onload] and
    [onerror]; [paperCutOk] tells whether the five calls of
    [toPaperCutCanvas] in its [try] block all return. *)
Definition markLoaded (paperCutOk : bool) (st : Assets) (report : AssetType * bool)
    : Assets :=
  let next := setKey (fst report) (snd report) (assetsLoaded st) in
  let loadedCount := S (loadedCount st) in
  if Nat.eqb loadedCount totalToLoad then
    {| assetsLoaded := setAll next; loadedCount := loadedCount;
       processed := if paperCutOk then true else processed st;
       setProcessedCalls := if paperCutOk then S (setProcessedCalls st)
                            else setProcessedCalls st |}
  else
    {| assetsLoaded := next; loadedCount := loadedCount;
       processed := processed st; setProcessedCalls := setProcessedCalls st |}.

(** The handlers run in the order the images report. *)
Definition reports (paperCutOk : bool) (rs : list (AssetType * bool)) (st : Assets)
    : Assets :=
  fold_left (markLoaded paperCutOk) rs st.

Definition sameKey (a b : AssetType) : bool :=
  match a, b with
  | key_bat, key_bat | key_batsman, key_batsman | key_dhBatsman, key_dhBatsman
  | key_ball, key_ball | key_grass, key_grass => true
  | _, _ => false
  end.

(** Every one of the five keys is among the reports. *)
Definition everyKeyReports (rs : list (AssetType * bool)) : bool :=
  forallb (fun k => existsb (fun r => sameKey k (fst r)) rs)
    [key_bat; key_batsman; key_dhBatsman; key_ball; key_grass].

End GameAssets.

(** ** The canvas component, [GameCanvas] *)

Module GameCanvas.

(** A point of [cBall.trail]. *)
Module TrailPoint.
Record t := { x : Q; y : Q; z : Q; radius : Q }.
End TrailPoint.

(** The fields of a [Ball] the component reads; [trail] is [None] where
    the property is absent. *)
Module Ball.
Record t := {
  x : Q;
  y : Q;
  z : Q;
  radius : Q;
  trail : option (list TrailPoint.t)
}.
End Ball.

(** The values given to [ctx.fillStyle] by [drawBall]. *)
Inductive FillStyle :=
  | Black (opacity : Q)          (* rgba(0, 0, 0, opacity) *)
  | White (opacity : Q)          (* rgba(255, 255, 255, opacity) *)
  | BALL_FALLBACK_COLOR.

(** What the component does to the 2D context, in order.  [Ellipse] and
    [Arc] are a whole path: [beginPath], the full ellipse or circle, and
    [fill] with the given style.  The four drawing functions other than
    [drawBall] are recorded as calls. *)
Inductive Draw :=
  | ClearRect (x y w h : Q)
  | DrawField
  | Save
  | Translate (x y : Q)
  | Scale (x y : Q)
  | DrawPitch
  | DrawStumps
  | DrawBatsman
  | Ellipse (x y radiusX radiusY : Q) (fillStyle : FillStyle)
  | Arc (x y radius : Q) (fillStyle : FillStyle)
  | DrawImage (dx dy dWidth dHeight : Q)
  | Restore.

(** [image && image.width > 0], and [image?.width > 0]: an image is known
    by its width, [None] standing for a missing one. *)
Definition spriteReady (image : option Q) : bool :=
  match image with
  | Some width => negb (Qle_bool width 0)
  | None => false
  end.

Section Constants.

(** The constants imported from [../constants]. *)
Variables BALL_RADIUS BALL_SPRITE_DISPLAY_WIDTH TRAIL_LENGTH : Q.
Variables CANVAS_WIDTH CANVAS_HEIGHT : Q.

(** The block [if (cBall.z > 0) { ... }] of [drawBall]. *)
Definition drawShadow (cBall : Ball.t) : list Draw :=
  if negb (Qle_bool (Ball.z cBall) 0) then
    let shadowOpacity := Qmax 0 (0.4 - Ball.z cBall / 150) in
    let shadowRadius := Qmax 1 (Ball.radius cBall - Ball.z cBall / 15) in
    let shadowY := Ball.y cBall + Ball.radius cBall in
    if negb (Qle_bool shadowRadius 0) then
      [Ellipse (Ball.x cBall) shadowY (shadowRadius * 1.5) (shadowRadius * 0.7)
         (Black shadowOpacity)]
    else []
  else [].

(** The callback of [cBall.trail.forEach]. *)
Definition drawTrailPoint (index : nat) (p : TrailPoint.t) : list Draw :=
  let trailProgress := inject_Z (Z.of_nat index) / TRAIL_LENGTH in
  let opacity := trailProgress * 0.5 in
  let radius := TrailPoint.radius p * trailProgress in
  if negb (Qle_bool radius 0.5) then
    [Arc (TrailPoint.x p) (TrailPoint.y p - TrailPoint.z p) radius (White opacity)]
  else [].

(** The block [if (gameState === 'BALL_IN_PLAY' && cBall.trail) { ... }]. *)
Definition drawTrail (gameState : string) (cBall : Ball.t) : list Draw :=
  match Ball.trail cBall with
  | Some trail =>
      if String.eqb gameState "BALL_IN_PLAY"
      then concat (imap drawTrailPoint trail)
      else []
  | None => []
  end.

(** [drawBall(ctx, cBall)], with the props [ballImage] and [gameState] it
    closes over. *)
Definition drawBall (ballImage : option Q) (gameState : string)
    (cBall : option Ball.t) : list Draw :=
  match cBall with
  | None => []
  | Some cBall =>
      let ballSpriteReady := spriteReady ballImage in
      let visualRadius := BALL_RADIUS + Ball.z cBall * 0.5 in
      let visualY := Ball.y cBall - Ball.z cBall in
      let displaySize := Qmax BALL_SPRITE_DISPLAY_WIDTH (visualRadius * 2) in
      drawShadow cBall ++ drawTrail gameState cBall ++
      [if ballSpriteReady then
         DrawImage (Ball.x cBall - displaySize / 2) (visualY - displaySize / 2)
           displaySize displaySize
       else
         Arc (Ball.x cBall) visualY visualRadius BALL_FALLBACK_COLOR]
  end.

(** The game states in which the render effect draws the ball. *)
Definition ballIsShown (gameState : string) : bool :=
  String.eqb gameState "BOWLING" || String.eqb gameState "HITTING"
  || String.eqb gameState "BALL_IN_PLAY" || String.eqb gameState "BALL_DEAD"
  || String.eqb gameState "OUT".

(** The "cover" scaling of the render effect: [scale], [gameAreaXOffset]
    and [gameAreaYOffset] for a canvas of the given size. *)
Definition coverScaling (width height : Q) : Q * Q * Q :=
  let scale := Qmax (width / CANVAS_WIDTH) (height / CANVAS_HEIGHT) in
  let gameAreaWidth := CANVAS_WIDTH * scale in
  let gameAreaHeight := CANVAS_HEIGHT * scale in
  let gameAreaXOffset := (width - gameAreaWidth) / 2 in
  let gameAreaYOffset := (height - gameAreaHeight) / 2 in
  (scale, gameAreaXOffset, gameAreaYOffset).

(** The render effect.  [ctx] tells whether [ctxRef.current] is set,
    [canvas] is the width and height of [canvasRef.current], and the four
    images are known by their widths. *)
Definition render (ctx : bool) (canvas : option (Q * Q))
    (ballImage batsmanImage batImage grassImage : option Q)
    (gameState : string) (ball : option Ball.t) : list Draw :=
  match ctx, canvas with
  | true, Some (width, height) =>
      let allAssetsReady :=
        spriteReady ballImage && spriteReady batsmanImage
        && spriteReady batImage && spriteReady grassImage in
      if negb allAssetsReady then
        ClearRect 0 0 width height ::
        (if spriteReady grassImage then [DrawField] else [])
      else
        let '(scale, gameAreaXOffset, gameAreaYOffset) := coverScaling width height in
        [ClearRect 0 0 width height; DrawField; Save;
         Translate gameAreaXOffset gameAreaYOffset; Scale scale scale;
         DrawPitch; DrawStumps; DrawBatsman]
        ++ (match ball with
            | Some _ => if ballIsShown gameState then drawBall ballImage gameState ball
                        else []
            | None => []
            end)
        ++ [Restore]
  | _, _ => []
  end.

End Constants.

(** Where the transform set by [translate] and [scale] puts a point of
    the virtual pitch. *)
Definition onCanvas (transform : Q * Q * Q) (p : Q * Q) : Q * Q :=
  let '(scale, xOffset, yOffset) := transform in
  (xOffset + scale * fst p, yOffset + scale * snd p).

Definition isShadow (d : Draw) : bool :=
  match d with Ellipse _ _ _ _ _ => true | _ => false end.

Definition isTrailDot (d : Draw) : bool :=
  match d with Arc _ _ _ (White _) => true | _ => false end.

Definition isBall (d : Draw) : bool :=
  match d with
  | DrawImage _ _ _ _ | Arc _ _ _ BALL_FALLBACK_COLOR => true
  | _ => false
  end.

End GameCanvas.

(** ** The composition root, [CricketGame] *)

Module CricketGame.

(** The two pieces of state behind the API-key overlay. *)
Record KeyGate := {
  apiKeyReady : bool;
  apiKeyError : bool
}.

Definition initialKeyGate : KeyGate :=
  {| apiKeyReady := false; apiKeyError := false |}.

Definition setApiKeyReady (v : bool) (g : KeyGate) : KeyGate :=
  {| apiKeyReady := v; apiKeyError := apiKeyError g |}.

Definition setApiKeyError (v : bool) (g : KeyGate) : KeyGate :=
  {| apiKeyReady := apiKeyReady g; apiKeyError := v |}.

Definition handleApiKeyError (g : KeyGate) : KeyGate :=
  setApiKeyError true (setApiKeyReady false g).

(** [checkKey]: [aistudio] is [None] where [window.aistudio] or its
    [hasSelectedApiKey] is missing, and otherwise what the awaited call
    gives, [None] for a rejection. *)
Definition checkKey (aistudio : option (option bool)) (g : KeyGate) : KeyGate :=
  match aistudio with
  | Some (Some hasKey) => setApiKeyReady hasKey g
  | Some None => g
  | None => setApiKeyReady true g
  end.

(** [handleSelectApiKey], with the completion of
    [window.aistudio.openSelectKey()]. *)
Definition handleSelectApiKey (openSelectKey : Completion) (g : KeyGate) : KeyGate :=
  let g := setApiKeyError false g in
  match openSelectKey with
  | Returned => setApiKeyReady true g
  | Threw => setApiKeyError true g
  end.

(** The hook is given [handleApiKeyError] as its [onApiKeyError]: what
    the effects of the hook do to the gate. *)
Definition deliver (e : Effect) (g : KeyGate) : KeyGate :=
  match e with
  | OnApiKeyError => handleApiKeyError g
  | _ => g
  end.

(** What [CricketGame] renders: the overlay asking for a key, with or
    without the error paragraph, or the game with its four conditional
    parts. *)
Inductive Screen :=
  | ApiKeyOverlay (error : bool)
  | Game (showPlayerSelect showStartButton showControls showSwingInstruction : bool).

Definition screen (g : KeyGate) (currentGameState : string) : Screen :=
  if negb (apiKeyReady g) then ApiKeyOverlay (apiKeyError g)
  else
    let showPlayerSelect := String.eqb currentGameState "PLAYER_SELECT" in
    let showStartButton :=
      negb showPlayerSelect
      && (String.eqb currentGameState "IDLE" || String.eqb currentGameState "GAME_OVER"
          || String.eqb currentGameState "LOADING") in
    let showControls :=
      String.eqb currentGameState "BOWLING" || String.eqb currentGameState "READY" in
    let showSwingInstruction := String.eqb currentGameState "BOWLING" in
    Game showPlayerSelect showStartButton showControls showSwingInstruction.

End CricketGame.

(** ** Scenarios for the asset loader and the canvas *)

(** Two pixels of image data. *)
Definition twoPixels : list Z := [200; 100; 50; 255; 10; 20; 30; 128]%Z.

(** Five reports, one for each image, of which the ball's is an error. *)
Definition ballFails : list (GameAssets.AssetType * bool) :=
  [(GameAssets.key_grass, true); (GameAssets.key_bat, true);
   (GameAssets.key_ball, false); (GameAssets.key_batsman, true);
   (GameAssets.key_dhBatsman, true)].

(** A ball at height 30 with a trail of two points. *)
Definition ballInTheAir : GameCanvas.Ball.t :=
  {| GameCanvas.Ball.x := 400; GameCanvas.Ball.y := 300; GameCanvas.Ball.z := 30;
     GameCanvas.Ball.radius := 8;
     GameCanvas.Ball.trail :=
       Some [ {| GameCanvas.TrailPoint.x := 380; GameCanvas.TrailPoint.y := 320;
                 GameCanvas.TrailPoint.z := 20; GameCanvas.TrailPoint.radius := 8 |};
              {| GameCanvas.TrailPoint.x := 390; GameCanvas.TrailPoint.y := 310;
                 GameCanvas.TrailPoint.z := 25; GameCanvas.TrailPoint.radius := 8 |} ] |}.

(** The dot [drawBall] draws for the second point of that trail when
    TRAIL_LENGTH is 10. *)
Definition secondTrailDot : GameCanvas.Draw :=
  GameCanvas.Arc 390 (310 - 25) (8 * (inject_Z (Z.of_nat 1) / 10))
    (GameCanvas.White (inject_Z (Z.of_nat 1) / 10 * 0.5)).

(** * Properties *)

(** ** Reading a field after a sequence of assignments *)

Ltac hook_simpl :=
  cbn [commentaryStatus liveSession isLiveSessionReady nextStartTime isAudioPlaying
       pendingNextBallAction audioCompletionCheckTimeout safetyNetNextBallTimeout
       timers nextHandle effects
       set_liveSession set_isLiveSessionReady set_nextStartTime set_isAudioPlaying
       set_pendingNextBallAction set_audioCompletionCheckTimeout
       set_safetyNetNextBallTimeout emit setCommentaryStatus setTimeout clearTimeout
       expire fst snd currentTime duration callback delay] in *.

(** Case analysis on every test a callback makes, innermost test first. *)
Ltac hook_cases :=
  repeat (hook_simpl;
          match goal with
          | |- context [match ?x with _ => _ end] =>
              lazymatch x with
              | context [match _ with _ => _ end] => fail
              | _ => destruct x eqn:?
              end
          end);
  hook_simpl.

Ltac hook_unfold :=
  unfold step, fire, safetyNetFires, setPendingAction, consumeAndRun,
    triggerDynamicCommentary, onclose, onerror, onmessage, playAudioPart, onopen,
    connectRejected, connectResolved, initLiveSession, scheduleAudioCompletionCheck,
    performCheckAndAct, runPendingNextBallAction in *.

Section Properties.

Variable initialSystemPrompt : string.
Variable decodeAudio : string -> option AudioBuffer.
Variable SAFETY_NET_MS : Q.

(** The event loop of the hook under these three parameters. *)
Abbreviation Step := (step initialSystemPrompt decodeAudio SAFETY_NET_MS).
Abbreviation Run := (run initialSystemPrompt decodeAudio SAFETY_NET_MS).

Lemma run_app (tr1 tr2 : list Event) (st : Hook) :
  Run (tr1 ++ tr2) st = Run tr2 (Run tr1 st).
Proof. unfold run. apply fold_left_app. Qed.

Lemma run_cons (e : Event) (tr : list Event) (st : Hook) :
  Run (e :: tr) st = Run tr (Step st e).
Proof. reflexivity. Qed.

(** ** The timeline cursor *)

Lemma step_cursor_monotone (st : Hook) (e : Event) :
  (forall payload audioBuffer,
      decodeAudio payload = Some audioBuffer -> 0 <= duration audioBuffer) ->
  withinSession e = true ->
  nextStartTime st <= nextStartTime (Step st e).
Proof.
  intros Hdur He. destruct e; try discriminate He; hook_unfold; hook_cases;
    try apply Qle_refl.
  all: try (match goal with
            | H : decodeAudio _ = Some _ |- _ => apply Hdur in H
            end).
  all: try (match goal with
            | |- context [Qmax ?x ?y] => pose proof (Q.le_max_l x y)
            end).
  all: lra.
Qed.

Lemma step_cursor_shape (st : Hook) (e : Event) :
  (forall payload audioBuffer,
      decodeAudio payload = Some audioBuffer -> 0 <= duration audioBuffer) ->
  withinSession e = true ->
  exists now d, 0 <= d /\
    (nextStartTime (Step st e) = nextStartTime st
     \/ nextStartTime (Step st e) = Qmax (nextStartTime st) now
     \/ nextStartTime (Step st e) = nextStartTime st + d
     \/ nextStartTime (Step st e) = Qmax (nextStartTime st) now + d).
Proof.
  intros Hdur He. destruct e; try discriminate He; hook_unfold; hook_cases.
  all: try solve [exists 0, 0; split; [apply Qle_refl | left; reflexivity]].
  all: try solve [eexists _, 0; split; [apply Qle_refl | right; left; reflexivity]].
  all: try solve [eexists 0, _; split; [ | right; right; left; reflexivity]; eauto].
  all: solve [eexists _, _; split; [ | right; right; right; reflexivity]; eauto].
Qed.

(** C8. Within one live session the timeline cursor never moves back:
    a (re)start that reaches the connection request resets it to the
    clock's current time; afterwards every callback leaves it alone,
    takes the maximum of it and the clock, or adds the duration of a
    decoded chunk (durations being non-negative), so over any sequence of
    callbacks of the session it is non-decreasing. *)
Theorem cursor_never_rewinds :
  (forall payload audioBuffer,
      decodeAudio payload = Some audioBuffer -> 0 <= duration audioBuffer) ->
  (forall ok audioCtx st st',
      initLiveSession initialSystemPrompt ok audioCtx st = (st', Returned) ->
      exists ctx, audioCtx = Some ctx /\ nextStartTime st' = currentTime ctx)
  /\ (forall st e, withinSession e = true ->
        exists now d, 0 <= d /\
          (nextStartTime (Step st e) = nextStartTime st
           \/ nextStartTime (Step st e) = Qmax (nextStartTime st) now
           \/ nextStartTime (Step st e) = nextStartTime st + d
           \/ nextStartTime (Step st e) = Qmax (nextStartTime st) now + d))
  /\ (forall tr st, forallb withinSession tr = true ->
        nextStartTime st <= nextStartTime (Run tr st)).
Proof.
  intros Hdur. split; [ | split].
  - intros ok audioCtx st st' H. unfold initLiveSession, runningContext in H.
    destruct ok; [ | destruct (liveSession st); discriminate H].
    destruct audioCtx as [ctx | ]; [ | destruct (liveSession st); discriminate H].
    exists ctx. split; [reflexivity | ].
    destruct (isRunning (Some ctx)), (liveSession st); cbn [negb] in H;
      try discriminate H; injection H as <-; reflexivity.
  - intros st e He. now apply step_cursor_shape.
  - induction tr as [ | e tr IH]; intros st Htr.
    + apply Qle_refl.
    + cbn [forallb] in Htr. apply andb_prop in Htr as [He Htr].
      rewrite run_cons. eapply Qle_trans; [ | apply IH, Htr].
      now apply step_cursor_monotone.
Qed.

(** ** The playback queue *)

(** What [onmessage] does with a chunk that decodes while the context runs. *)
Lemma onmessage_plays (c : string) (audioCtx : option AudioContext) (ctx : AudioContext)
    (message : Message) (payload : string) (audioBuffer : AudioBuffer) (st : Hook) :
  audioPayload message = Some payload ->
  runningContext audioCtx = Some ctx ->
  decodeAudio payload = Some audioBuffer ->
  let start := if isAudioPlaying st then nextStartTime st
               else Qmax (nextStartTime st) (currentTime ctx) in
  let st' := setCommentaryStatus "🎙️ Speaking..."
               (set_nextStartTime (start + duration audioBuffer)
                  (emit (SourceStart start audioBuffer)
                     (set_isAudioPlaying true (set_nextStartTime start st)))) in
  onmessage decodeAudio c audioCtx message st =
    (if isTurnComplete message then scheduleAudioCompletionCheck c audioCtx st' else st',
     Returned).
Proof.
  unfold audioPayload, isTurnComplete, onmessage, playAudioPart.
  destruct (serverContent message) as [content | ]; [ | discriminate].
  destruct (modelTurn content) as [parts | ]; [ | discriminate].
  intros -> -> ->. destruct (isAudioPlaying st) eqn:Hplaying; cbn [negb]; hook_simpl.
  - replace (set_nextStartTime (nextStartTime st) st) with st by now destruct st.
    now destruct (turnComplete content).
  - now destruct (turnComplete content).
Qed.

(** C2. A chunk that decodes while the output sink is running is started
    at [nextStartTime] when audio is already playing and at
    [max(nextStartTime, now)] when playback was idle; the cursor then
    stands at that start plus the chunk's duration and the playing flag
    is set, before the turn-complete test of the same message.  Two
    chunks in a row, the first not completing the turn, are therefore
    started back to back: the second starts where the first ends. *)
Theorem chunk_starts_at_cursor :
  (forall c audioCtx ctx message payload audioBuffer st,
      audioPayload message = Some payload ->
      runningContext audioCtx = Some ctx ->
      decodeAudio payload = Some audioBuffer ->
      let start := if isAudioPlaying st then nextStartTime st
                   else Qmax (nextStartTime st) (currentTime ctx) in
      exists st',
        effects st' = effects st ++ [SourceStart start audioBuffer;
                                     SetCommentaryStatus "🎙️ Speaking..."]
        /\ nextStartTime st' = start + duration audioBuffer
        /\ isAudioPlaying st' = true
        /\ onmessage decodeAudio c audioCtx message st =
             (if isTurnComplete message
              then scheduleAudioCompletionCheck c audioCtx st' else st', Returned))
  /\ (forall c1 c2 audioCtx1 audioCtx2 ctx1 ctx2 message1 message2 payload1 payload2
             audioBuffer1 audioBuffer2 st,
      audioPayload message1 = Some payload1 ->
      runningContext audioCtx1 = Some ctx1 ->
      decodeAudio payload1 = Some audioBuffer1 ->
      isTurnComplete message1 = false ->
      audioPayload message2 = Some payload2 ->
      runningContext audioCtx2 = Some ctx2 ->
      decodeAudio payload2 = Some audioBuffer2 ->
      isTurnComplete message2 = false ->
      let start := if isAudioPlaying st then nextStartTime st
                   else Qmax (nextStartTime st) (currentTime ctx1) in
      let st' := Run [OnMessage c1 audioCtx1 message1; OnMessage c2 audioCtx2 message2] st in
      effects st' = effects st ++
        [SourceStart start audioBuffer1; SetCommentaryStatus "🎙️ Speaking...";
         SourceStart (start + duration audioBuffer1) audioBuffer2;
         SetCommentaryStatus "🎙️ Speaking..."]
      /\ nextStartTime st' = start + duration audioBuffer1 + duration audioBuffer2
      /\ isAudioPlaying st' = true).
Proof.
  split.
  - intros c audioCtx ctx message payload audioBuffer st Hp Hr Hd start.
    eexists. rewrite (onmessage_plays c _ _ _ _ _ st Hp Hr Hd). fold start.
    repeat split; hook_simpl; try reflexivity.
    now rewrite <- app_assoc.
  - intros c1 c2 audioCtx1 audioCtx2 ctx1 ctx2 message1 message2 payload1 payload2
      audioBuffer1 audioBuffer2 st Hp1 Hr1 Hd1 Ht1 Hp2 Hr2 Hd2 Ht2 start st'.
    subst st'. unfold run. cbn [fold_left step].
    rewrite (onmessage_plays c1 _ _ _ _ _ st Hp1 Hr1 Hd1), Ht1. cbn [fst].
    rewrite (onmessage_plays c2 _ _ _ _ _ _ Hp2 Hr2 Hd2), Ht2. cbn [fst].
    fold start. hook_simpl. repeat split.
    now rewrite <- !app_assoc.
Qed.

(** What [onmessage] does with a chunk that fails to decode. *)
Lemma onmessage_decode_fails (c : string) (audioCtx : option AudioContext)
    (ctx : AudioContext) (message : Message) (payload : string) (st : Hook) :
  audioPayload message = Some payload ->
  runningContext audioCtx = Some ctx ->
  decodeAudio payload = None ->
  onmessage decodeAudio c audioCtx message st =
    (set_isAudioPlaying true
       (if isAudioPlaying st then st
        else set_nextStartTime (Qmax (nextStartTime st) (currentTime ctx)) st),
     Threw).
Proof.
  unfold audioPayload, onmessage, playAudioPart.
  destruct (serverContent message) as [content | ]; [ | discriminate].
  destruct (modelTurn content) as [parts | ]; [ | discriminate].
  intros -> -> ->. now destruct (isAudioPlaying st).
Qed.

(** C6, as the code has it. A chunk that fails to decode is dropped: the
    handler ends by throwing, nothing is started and no timer is touched,
    and the cursor is not advanced by any duration.  The cursor is left
    as it was when audio was already playing; when playback was idle it
    has been moved to [max(nextStartTime, now)] before the decoding was
    attempted.  Later chunks are processed as usual: of three chunks in
    a row whose second fails to decode, the third starts exactly where
    the first ends. *)
Theorem failed_chunk_is_dropped :
  (forall c audioCtx ctx message payload st,
      audioPayload message = Some payload ->
      runningContext audioCtx = Some ctx ->
      decodeAudio payload = None ->
      exists st',
        onmessage decodeAudio c audioCtx message st = (st', Threw)
        /\ effects st' = effects st
        /\ timers st' = timers st
        /\ nextStartTime st' =
             (if isAudioPlaying st then nextStartTime st
              else Qmax (nextStartTime st) (currentTime ctx))
        /\ (isAudioPlaying st = true -> nextStartTime st' = nextStartTime st))
  /\ (forall c1 c2 c3 audioCtx1 audioCtx2 audioCtx3 ctx1 ctx2 ctx3
             message1 message2 message3 payload1 payload2 payload3
             audioBuffer1 audioBuffer3 st,
      audioPayload message1 = Some payload1 ->
      runningContext audioCtx1 = Some ctx1 ->
      decodeAudio payload1 = Some audioBuffer1 ->
      isTurnComplete message1 = false ->
      audioPayload message2 = Some payload2 ->
      runningContext audioCtx2 = Some ctx2 ->
      decodeAudio payload2 = None ->
      audioPayload message3 = Some payload3 ->
      runningContext audioCtx3 = Some ctx3 ->
      decodeAudio payload3 = Some audioBuffer3 ->
      isTurnComplete message3 = false ->
      let start := if isAudioPlaying st then nextStartTime st
                   else Qmax (nextStartTime st) (currentTime ctx1) in
      let st1 := Step st (OnMessage c1 audioCtx1 message1) in
      let st2 := Step st1 (OnMessage c2 audioCtx2 message2) in
      let st3 := Step st2 (OnMessage c3 audioCtx3 message3) in
      nextStartTime st1 = start + duration audioBuffer1
      /\ nextStartTime st2 = nextStartTime st1
      /\ effects st3 = effects st ++
           [SourceStart start audioBuffer1; SetCommentaryStatus "🎙️ Speaking...";
            SourceStart (start + duration audioBuffer1) audioBuffer3;
            SetCommentaryStatus "🎙️ Speaking..."]
      /\ nextStartTime st3 = start + duration audioBuffer1 + duration audioBuffer3).
Proof.
  split.
  - intros c audioCtx ctx message payload st Hp Hr Hd.
    eexists. rewrite (onmessage_decode_fails c _ _ _ _ st Hp Hr Hd).
    split; [reflexivity | ].
    destruct (isAudioPlaying st); hook_simpl; repeat split; try reflexivity.
    discriminate.
  - intros c1 c2 c3 audioCtx1 audioCtx2 audioCtx3 ctx1 ctx2 ctx3
      message1 message2 message3 payload1 payload2 payload3 audioBuffer1 audioBuffer3 st
      Hp1 Hr1 Hd1 Ht1 Hp2 Hr2 Hd2 Hp3 Hr3 Hd3 Ht3 start st1 st2 st3.
    subst st3 st2 st1. cbn [step].
    rewrite (onmessage_plays c1 _ _ _ _ _ st Hp1 Hr1 Hd1), Ht1. cbn [fst].
    rewrite (onmessage_decode_fails c2 _ _ _ _ _ Hp2 Hr2 Hd2). cbn [fst].
    rewrite (onmessage_plays c3 _ _ _ _ _ _ Hp3 Hr3 Hd3), Ht3. cbn [fst].
    fold start. hook_simpl. repeat split.
    now rewrite <- !app_assoc.
Qed.

(** ** The completion detector *)

(** The three outcomes of one check. *)
Lemma check_idle (c : string) (audioCtx : option AudioContext) (st : Hook) :
  isAudioPlaying st = false \/ runningContext audioCtx = None ->
  performCheckAndAct c audioCtx st =
    runPendingNextBallAction
      (if startsWith c "🎙️ Speaking"
       then setCommentaryStatus (readyOrDisconnected st)
              (set_audioCompletionCheckTimeout None st)
       else set_audioCompletionCheckTimeout None st).
Proof.
  unfold performCheckAndAct. hook_simpl.
  intros [-> | ->]; [reflexivity | now destruct (isAudioPlaying st)].
Qed.

Lemma check_reached (c : string) (audioCtx : option AudioContext) (ctx : AudioContext)
    (st : Hook) :
  isAudioPlaying st = true ->
  runningContext audioCtx = Some ctx ->
  nextStartTime st - MARGIN_SECONDS <= currentTime ctx ->
  performCheckAndAct c audioCtx st =
    runPendingNextBallAction
      (setCommentaryStatus (readyOrDisconnected st)
         (set_isAudioPlaying false (set_audioCompletionCheckTimeout None st))).
Proof.
  unfold performCheckAndAct. hook_simpl. intros -> -> Hle.
  apply Qle_bool_iff in Hle. now rewrite Hle.
Qed.

Lemma check_not_reached (c : string) (audioCtx : option AudioContext)
    (ctx : AudioContext) (st : Hook) :
  isAudioPlaying st = true ->
  runningContext audioCtx = Some ctx ->
  currentTime ctx < nextStartTime st - MARGIN_SECONDS ->
  performCheckAndAct c audioCtx st =
    set_audioCompletionCheckTimeout (Some (nextHandle st))
      (setTimeout (PerformCheckAndAct c)
         (timeToWait (nextStartTime st) (currentTime ctx))
         (set_audioCompletionCheckTimeout None st)).
Proof.
  unfold performCheckAndAct. hook_simpl. intros -> -> Hlt.
  destruct (Qle_bool _ _) eqn:Hle; [ | reflexivity].
  apply Qle_bool_iff in Hle. lra.
Qed.

Lemma runPendingNextBallAction_actionsRun (st : Hook) :
  actionsRun (runPendingNextBallAction st) =
    actionsRun st ++ match pendingNextBallAction st with
                     | Some a => [a]
                     | None => []
                     end.
Proof.
  unfold runPendingNextBallAction, actionsRun.
  hook_cases; rewrite ?omap_app; simpl; now rewrite ?app_nil_r.
Qed.

Lemma pollAt_not_reached (st : Hook) (t : Q) :
  armed st -> t < nextStartTime st - MARGIN_SECONDS ->
  armed (pollAt st t)
  /\ nextStartTime (pollAt st t) = nextStartTime st
  /\ pendingNextBallAction (pollAt st t) = pendingNextBallAction st
  /\ actionsRun (pollAt st t) = actionsRun st.
Proof.
  intros (Hplaying & h & tm & Href & Htm & Hpoll) Hlt.
  unfold pollAt, fire. rewrite Href, Htm.
  destruct tm as [[c | ] d]; [ | discriminate Hpoll]. cbn [callback].
  rewrite (check_not_reached c _ {| state := running; currentTime := t |});
    [ | assumption | reflexivity | assumption].
  unfold armed, actionsRun. hook_simpl. repeat split; try assumption.
  - eexists _, _. split; [reflexivity | ]. split; [apply lookup_insert_eq | reflexivity].
  - rewrite omap_app. simpl. now rewrite app_nil_r.
Qed.

Lemma pollAt_reached (st : Hook) (t : Q) :
  armed st -> nextStartTime st - MARGIN_SECONDS <= t ->
  isAudioPlaying (pollAt st t) = false
  /\ audioCompletionCheckTimeout (pollAt st t) = None
  /\ pendingNextBallAction (pollAt st t) = None
  /\ actionsRun (pollAt st t) =
       actionsRun st ++ match pendingNextBallAction st with
                        | Some a => [a]
                        | None => []
                        end.
Proof.
  intros (Hplaying & h & tm & Href & Htm & Hpoll) Hle.
  unfold pollAt, fire. rewrite Href, Htm.
  destruct tm as [[c | ] d]; [ | discriminate Hpoll]. cbn [callback].
  rewrite (check_reached c _ {| state := running; currentTime := t |});
    [ | assumption | reflexivity | assumption].
  rewrite runPendingNextBallAction_actionsRun.
  unfold runPendingNextBallAction, actionsRun. hook_simpl.
  hook_cases; repeat split; rewrite ?omap_app; simpl; now rewrite ?app_nil_r.
Qed.

Lemma polls_before_threshold (ts : list Q) (st : Hook) :
  armed st -> Forall (fun t => t < nextStartTime st - MARGIN_SECONDS) ts ->
  armed (fold_left pollAt ts st)
  /\ nextStartTime (fold_left pollAt ts st) = nextStartTime st
  /\ pendingNextBallAction (fold_left pollAt ts st) = pendingNextBallAction st
  /\ actionsRun (fold_left pollAt ts st) = actionsRun st.
Proof.
  revert st. induction ts as [ | t ts IH]; intros st Harmed Hts; [easy | ].
  inversion Hts as [ | ? ? Ht Hts']; subst.
  destruct (pollAt_not_reached st t Harmed Ht) as (Harmed' & Hcursor & Hpending & Hrun).
  cbn [fold_left]. rewrite <- Hcursor in Hts'.
  destruct (IH _ Harmed' Hts') as (? & ? & ? & ?).
  split; [assumption | ]. repeat split; congruence.
Qed.

Lemma runningContext_runningAt (t : Q) :
  runningContext (runningAt t) = Some {| state := running; currentTime := t |}.
Proof. reflexivity. Qed.

Lemma arm_not_reached (c : string) (t : Q) (st : Hook) :
  isAudioPlaying st = true -> t < nextStartTime st - MARGIN_SECONDS ->
  armed (scheduleAudioCompletionCheck c (runningAt t) st)
  /\ nextStartTime (scheduleAudioCompletionCheck c (runningAt t) st) = nextStartTime st.
Proof.
  intros Hplaying Hlt. unfold scheduleAudioCompletionCheck.
  rewrite (check_not_reached c _ {| state := running; currentTime := t |});
    [ | now destruct (audioCompletionCheckTimeout st) | reflexivity
      | now destruct (audioCompletionCheckTimeout st)].
  unfold armed. destruct (audioCompletionCheckTimeout st); hook_simpl.
  all: split; [ | reflexivity]; split; [assumption | ].
  all: eexists _, _; split; [reflexivity | ].
  all: split; [apply lookup_insert_eq | reflexivity].
Qed.

Lemma arm_reached (c : string) (t : Q) (st : Hook) :
  isAudioPlaying st = true -> nextStartTime st - MARGIN_SECONDS <= t ->
  isAudioPlaying (scheduleAudioCompletionCheck c (runningAt t) st) = false.
Proof.
  intros Hplaying Hle. unfold scheduleAudioCompletionCheck.
  rewrite (check_reached c _ {| state := running; currentTime := t |});
    [ | now destruct (audioCompletionCheckTimeout st) | reflexivity
      | now destruct (audioCompletionCheckTimeout st)].
  unfold runPendingNextBallAction. hook_cases; reflexivity.
Qed.

(** C3. While audio is playing and the output sink is running, a check
    that reads a clock time strictly before [nextStartTime - 0.15] does
    not declare completion: the flag stays set, no action runs, and one
    poll is left outstanding.  A check that reads a time at or past that
    threshold declares completion: it clears the flag, emits the status
    transition and runs the pending action.  So, with no chunk arriving in
    between, the polls of an armed detector leave the flag set as long as
    they read times before the threshold and the first one at or past it
    clears the flag.  For chunks of 1.0 s and 0.8 s received at clock
    time 10 with the cursor at 10, the chunks start at 10 and 11, the
    cursor reaches 11.8, and completion is declared by the first check
    that reads a time of 11.65 or more. *)
Theorem completion_at_threshold :
  (forall c audioCtx ctx st,
      isAudioPlaying st = true ->
      runningContext audioCtx = Some ctx ->
      currentTime ctx < nextStartTime st - MARGIN_SECONDS ->
      let st' := performCheckAndAct c audioCtx st in
      isAudioPlaying st' = true
      /\ pendingNextBallAction st' = pendingNextBallAction st
      /\ actionsRun st' = actionsRun st
      /\ commentaryStatus st' = commentaryStatus st
      /\ audioCompletionCheckTimeout st' = Some (nextHandle st)
      /\ timers st' !! nextHandle st =
           Some {| callback := PerformCheckAndAct c;
                   delay := timeToWait (nextStartTime st) (currentTime ctx) |})
  /\ (forall c audioCtx ctx st,
      isAudioPlaying st = true ->
      runningContext audioCtx = Some ctx ->
      nextStartTime st - MARGIN_SECONDS <= currentTime ctx ->
      let st' := performCheckAndAct c audioCtx st in
      isAudioPlaying st' = false
      /\ commentaryStatus st' = readyOrDisconnected st
      /\ audioCompletionCheckTimeout st' = None
      /\ pendingNextBallAction st' = None
      /\ actionsRun st' = actionsRun st ++ match pendingNextBallAction st with
                                           | Some a => [a]
                                           | None => []
                                           end)
  /\ (forall ts t st,
      armed st ->
      Forall (fun t' => t' < nextStartTime st - MARGIN_SECONDS) ts ->
      nextStartTime st - MARGIN_SECONDS <= t ->
      isAudioPlaying (fold_left pollAt ts st) = true
      /\ isAudioPlaying (fold_left pollAt (ts ++ [t]) st) = false)
  /\ (forall c message1 message2 payload1 payload2 st,
      isAudioPlaying st = false ->
      nextStartTime st = 10 ->
      audioPayload message1 = Some payload1 ->
      decodeAudio payload1 = Some {| duration := 1 |} ->
      isTurnComplete message1 = false ->
      audioPayload message2 = Some payload2 ->
      decodeAudio payload2 = Some {| duration := 0.8 |} ->
      isTurnComplete message2 = false ->
      let st2 := Run [OnMessage c (runningAt 10) message1;
                      OnMessage c (runningAt 10) message2] st in
      effects st2 = effects st ++
        [SourceStart 10 {| duration := 1 |}; SetCommentaryStatus "🎙️ Speaking...";
         SourceStart 11 {| duration := 0.8 |}; SetCommentaryStatus "🎙️ Speaking..."]
      /\ nextStartTime st2 == 11.8
      /\ (forall t0, 11.65 <= t0 ->
            isAudioPlaying (scheduleAudioCompletionCheck c (runningAt t0) st2) = false)
      /\ (forall t0 ts t,
            Forall (fun t' => t' < 11.65) (t0 :: ts) -> 11.65 <= t ->
            let st3 := scheduleAudioCompletionCheck c (runningAt t0) st2 in
            isAudioPlaying (fold_left pollAt ts st3) = true
            /\ isAudioPlaying (fold_left pollAt (ts ++ [t]) st3) = false)).
Proof.
  split; [ | split; [ | split]].
  - intros c audioCtx ctx st Hplaying Hr Hlt st'. subst st'.
    rewrite (check_not_reached c _ _ _ Hplaying Hr Hlt). unfold actionsRun.
    hook_simpl. repeat split; try assumption.
    + rewrite omap_app. simpl. now rewrite app_nil_r.
    + apply lookup_insert_eq.
  - intros c audioCtx ctx st Hplaying Hr Hle st'. subst st'.
    rewrite (check_reached c _ _ _ Hplaying Hr Hle).
    rewrite runPendingNextBallAction_actionsRun.
    unfold runPendingNextBallAction, actionsRun. hook_cases.
    all: repeat split; rewrite ?omap_app; simpl; now rewrite ?app_nil_r.
  - intros ts t st Harmed Hts Hle.
    destruct (polls_before_threshold ts st Harmed Hts) as (Harmed' & Hcursor & _).
    split; [apply Harmed' | ].
    rewrite fold_left_app. cbn [fold_left].
    apply pollAt_reached; [assumption | now rewrite Hcursor].
  - intros c message1 message2 payload1 payload2 st Hidle Hcursor
      Hp1 Hd1 Ht1 Hp2 Hd2 Ht2 st2.
    subst st2. unfold run. cbn [fold_left step].
    rewrite (onmessage_plays c _ _ _ _ _ st Hp1 (runningContext_runningAt 10) Hd1), Ht1.
    cbn [fst].
    rewrite (onmessage_plays c _ _ _ _ _ _ Hp2 (runningContext_runningAt 10) Hd2), Ht2.
    cbn [fst]. rewrite Hidle, Hcursor. hook_simpl.
    change (Qmax 10 10) with 10. change (10 + 1) with 11.
    split; [now rewrite <- !app_assoc | ].
    split; [reflexivity | ].
    split.
    + intros t0 Ht0. apply arm_reached; [reflexivity | ].
      hook_simpl. unfold MARGIN_SECONDS. lra.
    + intros t0 ts t Hts Ht. inversion Hts as [ | ? ? Ht0 Hts']; subst.
      match goal with
      | |- context [scheduleAudioCompletionCheck c (runningAt t0) ?s] =>
          destruct (arm_not_reached c t0 s) as (Harmed & Hcur);
          [reflexivity | hook_simpl; unfold MARGIN_SECONDS; lra | ];
          set (st3 := scheduleAudioCompletionCheck c (runningAt t0) s) in *
      end.
      hook_simpl.
      destruct (polls_before_threshold ts st3 Harmed) as (Harmed' & Hcur' & _).
      * rewrite Hcur. eapply Forall_impl; [apply Hts' | ].
        cbn beta. intros t' Ht'. unfold MARGIN_SECONDS. lra.
      * split; [apply Harmed' | ].
        rewrite fold_left_app. cbn [fold_left].
        apply pollAt_reached; [assumption | ].
        rewrite Hcur', Hcur. unfold MARGIN_SECONDS. lra.
Qed.

(** C4, as the code has it. A check that finds the threshold not yet
    reached installs exactly one timeout for its own re-run, keeps its
    handle in the ref, and touches nothing else.  The delay is the larger
    of 50 ms and the time remaining until the expected end
    [nextStartTime] (not until the threshold) plus the margin, in
    milliseconds: [max(50, (nextStartTime - now + 0.15) * 1000)].  It is
    therefore more than 300 ms, and if no poll was outstanding when the
    check started, the new one is the only poll outstanding. *)
Theorem recheck_is_scheduled_once :
  forall c audioCtx ctx st,
    isAudioPlaying st = true ->
    runningContext audioCtx = Some ctx ->
    currentTime ctx < nextStartTime st - MARGIN_SECONDS ->
    let st' := performCheckAndAct c audioCtx st in
    let ms := Qmax 50 ((nextStartTime st - currentTime ctx + 0.15) * 1000) in
    effects st' = effects st ++ [SetTimeout (nextHandle st) (PerformCheckAndAct c) ms]
    /\ timers st' =
         <[nextHandle st := {| callback := PerformCheckAndAct c; delay := ms |}]> (timers st)
    /\ audioCompletionCheckTimeout st' = Some (nextHandle st)
    /\ 300 < ms
    /\ ((forall h t, timers st !! h = Some t -> isPoll t = false) ->
        forall h t, timers st' !! h = Some t -> isPoll t = true -> h = nextHandle st).
Proof.
  intros c audioCtx ctx st Hplaying Hr Hlt st' ms. subst st'.
  rewrite (check_not_reached c _ _ _ Hplaying Hr Hlt). hook_simpl.
  repeat split.
  - subst ms. unfold MARGIN_SECONDS in Hlt.
    pose proof (Q.le_max_r 50 ((nextStartTime st - currentTime ctx + 0.15) * 1000)).
    lra.
  - intros Hnone h t Hh Ht.
    destruct (decide (nextHandle st = h)) as [ | Hne]; [easy | ].
    rewrite lookup_insert_ne in Hh by assumption.
    apply Hnone in Hh. congruence.
Qed.

(** ** One handle per timer role *)

Ltac wf_destruct :=
  match goal with
  | H : wf _ |- _ =>
      destruct H as [Hfresh Hpfresh Hpoll Hsafe Hpref Harmed Hidle]
  end.

Ltac wf_lookup :=
  repeat match goal with
         | H : <[ _ := _ ]> _ !! _ = Some _ |- _ =>
             apply lookup_insert_Some in H as [[<- <-] | [? H]]
         | H : delete _ _ !! _ = Some _ |- _ =>
             apply lookup_delete_Some in H as [? H]
         | H : Some _ = Some _ |- _ => injection H as H; subst
         | H : None = Some _ |- _ => discriminate H
         | H : Some _ = None |- _ => discriminate H
         | H : isPoll {| callback := _; delay := _ |} = _ |- _ =>
             cbn in H; try discriminate H
         end.

Ltac learn H :=
  let T := type of H in
  lazymatch goal with
  | _ : T |- _ => fail
  | _ => pose proof H
  end.

(** Everything the invariant says about the timers and refs in sight. *)
Ltac wf_saturate :=
  repeat match goal with
         | Hl : timers _ !! ?h = Some ?t |- _ =>
             lazymatch goal with
             | _ : isPoll t = _ |- _ => fail
             | _ => destruct (isPoll t) eqn:?
             end
         | Hf : (forall h t, timers ?s !! h = Some t -> (h < nextHandle ?s)%positive),
           Hl : timers ?s !! ?h = Some ?t |- _ => learn (Hf h t Hl)
         | Hf : (forall h t, timers ?s !! h = Some t -> isPoll t = true ->
                             audioCompletionCheckTimeout ?s = Some h),
           Hl : timers ?s !! ?h = Some ?t, Hp : isPoll ?t = true |- _ =>
             learn (Hf h t Hl Hp)
         | Hf : (forall h t, timers ?s !! h = Some t -> isPoll t = false ->
                             safetyNetNextBallTimeout ?s = Some h),
           Hl : timers ?s !! ?h = Some ?t, Hp : isPoll ?t = false |- _ =>
             learn (Hf h t Hl Hp)
         | Hf : (forall h, audioCompletionCheckTimeout ?s = Some h ->
                           (h < nextHandle ?s)%positive),
           Hr : audioCompletionCheckTimeout ?s = Some ?h |- _ => learn (Hf h Hr)
         | Hf : (forall h t, audioCompletionCheckTimeout ?s = Some h ->
                             timers ?s !! h = Some t -> isPoll t = true),
           Hr : audioCompletionCheckTimeout ?s = Some ?h,
           Hl : timers ?s !! ?h = Some ?t |- _ => learn (Hf h t Hr Hl)
         | Hf : (pendingNextBallAction ?s = None ->
                 forall h t, timers ?s !! h = Some t -> isPoll t = true),
           Hp : pendingNextBallAction ?s = None,
           Hl : timers ?s !! ?h = Some ?t |- _ => learn (Hf Hp h t Hl)
         | Hf : (forall h t, timers ?s !! h = Some t -> isPoll t = false),
           Hl : timers ?s !! ?h = Some ?t |- _ => learn (Hf h t Hl)
         | Hf : (forall fn, pendingNextBallAction ?s = Some fn -> exists h t, _),
           Hp : pendingNextBallAction ?s = Some ?fn |- _ =>
             let hs := fresh "hs" in
             let ts := fresh "ts" in
             destruct (Hf fn Hp) as (hs & ts & ? & ? & ?); clear Hf
         end.

Ltac wf_distinct :=
  first [ lia | congruence | intro; subst; wf_saturate; congruence ].

Ltac wf_lookup_goal :=
  repeat first [ apply lookup_insert_eq
               | rewrite lookup_insert_ne by wf_distinct
               | rewrite lookup_delete_ne by wf_distinct ];
  try eassumption.

Ltac wf_close :=
  hook_simpl; wf_lookup; wf_saturate; wf_lookup;
  try reflexivity; try lia; try congruence;
  try solve [ eexists _, _; split; [first [eassumption | reflexivity] | ];
              split; [wf_lookup_goal | first [eassumption | reflexivity]] ].

Ltac wf_auto := hook_cases; wf_destruct; split; intros; wf_close.

Lemma runPendingNextBallAction_wf (st : Hook) :
  wf st -> wf (runPendingNextBallAction st).
Proof.
  intros Hwf. unfold runPendingNextBallAction. wf_auto.
Qed.

Lemma consumeAndRun_wf (st : Hook) : wf st -> wf (consumeAndRun st).
Proof. intros Hwf. unfold consumeAndRun. wf_auto. Qed.

Lemma performCheckAndAct_wf (c : string) (audioCtx : option AudioContext) (st : Hook) :
  wf st -> (forall h t, timers st !! h = Some t -> isPoll t = false) ->
  wf (performCheckAndAct c audioCtx st).
Proof.
  intros Hwf Hnone. unfold performCheckAndAct, runPendingNextBallAction. wf_auto.
Qed.

Lemma scheduleAudioCompletionCheck_wf (c : string) (audioCtx : option AudioContext)
    (st : Hook) :
  wf st -> wf (scheduleAudioCompletionCheck c audioCtx st).
Proof.
  intros Hwf. unfold scheduleAudioCompletionCheck.
  destruct (audioCompletionCheckTimeout st) as [h | ] eqn:Href.
  - apply performCheckAndAct_wf.
    + wf_auto.
    + hook_simpl. intros h' t Hh'. wf_destruct. wf_close.
  - apply performCheckAndAct_wf; [assumption | ].
    intros h' t Hh'. wf_destruct. wf_close.
Qed.

Lemma setPendingAction_wf (fn : Action) (st : Hook) :
  wf st -> wf (setPendingAction SAFETY_NET_MS fn st).
Proof. intros Hwf. unfold setPendingAction. wf_auto. Qed.

Lemma fire_wf (h : Handle) (audioCtx : option AudioContext) (st : Hook) :
  wf st -> wf (fire h audioCtx st).
Proof.
  intros Hwf. unfold fire.
  destruct (timers st !! h) as [[[c | ] d] | ] eqn:Hh; [ | | assumption]; cbn [callback].
  - apply performCheckAndAct_wf.
    + wf_auto.
    + hook_simpl. intros h' t Hh'. wf_destruct. wf_close.
  - unfold safetyNetFires, consumeAndRun. wf_auto.
Qed.

Lemma step_wf (st : Hook) (e : Event) : wf st -> wf (Step st e).
Proof.
  intros Hwf. destruct e; cbn [step].
  - unfold initLiveSession. wf_auto.
  - unfold connectResolved. wf_auto.
  - unfold connectRejected. wf_auto.
  - unfold onopen. wf_auto.
  - unfold onmessage, playAudioPart.
    hook_cases; try assumption; try apply scheduleAudioCompletionCheck_wf; wf_auto.
  - unfold onerror. apply scheduleAudioCompletionCheck_wf. wf_auto.
  - unfold onclose. apply scheduleAudioCompletionCheck_wf. wf_auto.
  - unfold triggerDynamicCommentary.
    hook_cases; try assumption; try apply scheduleAudioCompletionCheck_wf; wf_auto.
  - now apply fire_wf.
  - now apply setPendingAction_wf.
Qed.

Lemma run_wf (tr : list Event) (st : Hook) : wf st -> wf (Run tr st).
Proof.
  revert st. induction tr as [ | e tr IH]; intros st Hwf; [assumption | ].
  rewrite run_cons. apply IH. now apply step_wf.
Qed.

Lemma initialHook_wf : wf initialHook.
Proof. split; cbn; intros; try discriminate; now rewrite lookup_empty in *. Qed.

(** A handle that is spent stays spent: ids are never handed out twice. *)
Lemma step_spent (h : Handle) (st : Hook) (e : Event) :
  spent h st -> spent h (Step st e).
Proof.
  intros [Hnone Hlt]. unfold spent.
  destruct e; hook_unfold; hook_cases; split; try assumption; try lia.
  all: repeat first [ rewrite lookup_insert_ne by lia
                    | rewrite lookup_delete_None; right ];
    assumption.
Qed.

Lemma run_spent (h : Handle) (tr : list Event) (st : Hook) :
  spent h st -> spent h (Run tr st).
Proof.
  revert st. induction tr as [ | e tr IH]; intros st Hs; [assumption | ].
  rewrite run_cons. apply IH. now apply step_spent.
Qed.

Lemma scheduleAudioCompletionCheck_spent (c : string) (audioCtx : option AudioContext)
    (h : Handle) (st : Hook) :
  wf st -> audioCompletionCheckTimeout st = Some h ->
  spent h (scheduleAudioCompletionCheck c audioCtx st).
Proof.
  intros Hwf Href. pose proof (wf_poll_fresh st Hwf h Href) as Hlt.
  unfold spent, scheduleAudioCompletionCheck, performCheckAndAct,
    runPendingNextBallAction.
  rewrite Href. hook_cases; split; try lia.
  all: repeat first [ rewrite lookup_insert_ne by lia
                    | rewrite lookup_delete_None ];
    auto.
Qed.

(** C5. Arming the detector first cancels the poll whose handle the ref
    holds, and only then runs its check, which installs at most one poll
    of its own.  Over any sequence of callbacks at most one poll timeout
    is outstanding, and it is the one the ref holds.  The poll that an
    arm call replaced never runs: its handle stays spent, so its firing
    at any later time changes nothing. *)
Theorem arm_replaces_outstanding_poll :
  (forall c audioCtx st h,
      audioCompletionCheckTimeout st = Some h ->
      exists rest,
        effects (scheduleAudioCompletionCheck c audioCtx st) =
          effects st ++ ClearTimeout h :: rest)
  /\ (forall tr st h1 h2 t1 t2,
      wf st ->
      timers (Run tr st) !! h1 = Some t1 -> isPoll t1 = true ->
      timers (Run tr st) !! h2 = Some t2 -> isPoll t2 = true ->
      h1 = h2 /\ audioCompletionCheckTimeout (Run tr st) = Some h1)
  /\ (forall tr h1 h2 t1 t2,
      timers (Run tr initialHook) !! h1 = Some t1 -> isPoll t1 = true ->
      timers (Run tr initialHook) !! h2 = Some t2 -> isPoll t2 = true ->
      h1 = h2)
  /\ (forall c audioCtx st h tr audioCtx',
      wf st ->
      audioCompletionCheckTimeout st = Some h ->
      let st' := Run tr (scheduleAudioCompletionCheck c audioCtx st) in
      timers st' !! h = None /\ fire h audioCtx' st' = st').
Proof.
  assert (Hone : forall tr st h1 h2 t1 t2,
      wf st ->
      timers (Run tr st) !! h1 = Some t1 -> isPoll t1 = true ->
      timers (Run tr st) !! h2 = Some t2 -> isPoll t2 = true ->
      h1 = h2 /\ audioCompletionCheckTimeout (Run tr st) = Some h1).
  { intros tr st h1 h2 t1 t2 Hwf H1 Hp1 H2 Hp2.
    apply (run_wf tr) in Hwf.
    pose proof (wf_poll_owned _ Hwf _ _ H1 Hp1) as E1.
    pose proof (wf_poll_owned _ Hwf _ _ H2 Hp2) as E2.
    split; congruence. }
  split; [ | split; [ | split]].
  - intros c audioCtx st h Href.
    unfold scheduleAudioCompletionCheck, performCheckAndAct, runPendingNextBallAction.
    rewrite Href. hook_cases; eexists; rewrite <- ?app_assoc; cbn [app]; reflexivity.
  - exact Hone.
  - intros tr h1 h2 t1 t2 H1 Hp1 H2 Hp2.
    now destruct (Hone tr initialHook h1 h2 t1 t2 initialHook_wf H1 Hp1 H2 Hp2).
  - intros c audioCtx st h tr audioCtx' Hwf Href st'.
    destruct (run_spent h tr _ (scheduleAudioCompletionCheck_spent c audioCtx h st Hwf Href))
      as [Hnone _].
    fold st' in Hnone. split; [assumption | ].
    unfold fire. now rewrite Hnone.
Qed.

(** ** The deferred next-ball action *)

Ltac log_simpl :=
  unfold actionsRun; hook_simpl; rewrite ?omap_app; simpl; rewrite ?app_nil_r.

Lemma step_pending_none (st : Hook) (e : Event) :
  keepsPendingAction e = true ->
  pendingNextBallAction st = None ->
  pendingNextBallAction (Step st e) = None /\ actionsRun (Step st e) = actionsRun st.
Proof.
  intros He Hp. destruct e; try discriminate He; hook_unfold; hook_cases;
    try congruence; log_simpl; split; congruence.
Qed.

Lemma step_pending_some (st : Hook) (e : Event) (fn : Action) :
  keepsPendingAction e = true ->
  pendingNextBallAction st = Some fn ->
  (pendingNextBallAction (Step st e) = Some fn
   /\ actionsRun (Step st e) = actionsRun st)
  \/ (pendingNextBallAction (Step st e) = None
      /\ actionsRun (Step st e) = actionsRun st ++ [fn]).
Proof.
  intros He Hp. destruct e; try discriminate He; hook_unfold; hook_cases;
    try congruence; log_simpl.
  all: first [ left; split; [assumption | reflexivity]
             | right; split; [reflexivity | congruence] ].
Qed.

Lemma run_pending_none (tr : list Event) (st : Hook) :
  forallb keepsPendingAction tr = true ->
  pendingNextBallAction st = None ->
  pendingNextBallAction (Run tr st) = None /\ actionsRun (Run tr st) = actionsRun st.
Proof.
  revert st. induction tr as [ | e tr IH]; intros st Htr Hp; [easy | ].
  cbn [forallb] in Htr. apply andb_prop in Htr as [He Htr].
  destruct (step_pending_none st e He Hp) as [Hp' Hr'].
  rewrite run_cons. destruct (IH _ Htr Hp') as [? ?]. split; congruence.
Qed.

Lemma run_pending_some (tr : list Event) (st : Hook) (fn : Action) :
  forallb keepsPendingAction tr = true ->
  pendingNextBallAction st = Some fn ->
  (pendingNextBallAction (Run tr st) = Some fn
   /\ actionsRun (Run tr st) = actionsRun st)
  \/ (pendingNextBallAction (Run tr st) = None
      /\ actionsRun (Run tr st) = actionsRun st ++ [fn]).
Proof.
  revert st. induction tr as [ | e tr IH]; intros st Htr Hp; [now left | ].
  cbn [forallb] in Htr. apply andb_prop in Htr as [He Htr].
  rewrite run_cons.
  destruct (step_pending_some st e fn He Hp) as [[Hp' Hr'] | [Hp' Hr']].
  - destruct (IH _ Htr Hp') as [[? ?] | [? ?]]; [left | right]; split; congruence.
  - destruct (run_pending_none tr _ Htr Hp') as [? ?]. right. split; congruence.
Qed.

(** What the detector's consuming block does when the safety net is held. *)
Lemma runPendingNextBallAction_consumes (st : Hook) (fn : Action) (hs : Handle) :
  pendingNextBallAction st = Some fn ->
  safetyNetNextBallTimeout st = Some hs ->
  (forall h t, timers st !! h = Some t -> isPoll t = false -> h = hs) ->
  effects (runPendingNextBallAction st) = effects st ++ [ClearTimeout hs; RunAction fn]
  /\ pendingNextBallAction (runPendingNextBallAction st) = None
  /\ safetyNetNextBallTimeout (runPendingNextBallAction st) = None
  /\ timers (runPendingNextBallAction st) = delete hs (timers st)
  /\ (forall h t, timers (runPendingNextBallAction st) !! h = Some t -> isPoll t = true).
Proof.
  intros Hp Hs Howned.
  unfold runPendingNextBallAction. rewrite Hp. hook_simpl. rewrite Hs. hook_simpl.
  repeat split; try reflexivity.
  - now rewrite <- app_assoc.
  - intros h t Hh. apply lookup_delete_Some in Hh as [Hne Hh].
    destruct (isPoll t) eqn:Ht; [reflexivity | ].
    apply Howned in Hh; [congruence | assumption].
Qed.

(** C1. One setting of the pending next-ball action leads to exactly one
    invocation, whichever of the detector and the safety net comes first.
    Setting stores the action and starts the safety-net timeout.  A check
    of the detector that declares completion, and the firing of the
    safety net, each clear the slot and cancel the safety-net timeout
    before they invoke the action, and leave no safety-net timeout
    outstanding.  Over any sequence of callbacks that does not set a new
    action, the action is either still pending and not yet run, with its
    safety net outstanding, or it has run exactly once and the slot is
    empty: no later callback runs it again. *)
Theorem pending_action_runs_exactly_once :
  (forall fn st,
      let st1 := setPendingAction SAFETY_NET_MS fn st in
      pendingNextBallAction st1 = Some fn
      /\ safetyNetNextBallTimeout st1 = Some (nextHandle st)
      /\ timers st1 !! nextHandle st =
           Some {| callback := SafetyNet; delay := SAFETY_NET_MS |}
      /\ actionsRun st1 = actionsRun st)
  /\ (forall c audioCtx st fn,
      wf st ->
      pendingNextBallAction st = Some fn ->
      (isAudioPlaying st = false
       \/ runningContext audioCtx = None
       \/ exists ctx, runningContext audioCtx = Some ctx
                      /\ nextStartTime st - MARGIN_SECONDS <= currentTime ctx) ->
      let st' := performCheckAndAct c audioCtx st in
      exists hs status,
        safetyNetNextBallTimeout st = Some hs
        /\ effects st' = effects st ++ status ++ [ClearTimeout hs; RunAction fn]
        /\ (forall e, In e status -> exists s, e = SetCommentaryStatus s)
        /\ pendingNextBallAction st' = None
        /\ safetyNetNextBallTimeout st' = None
        /\ timers st' !! hs = None
        /\ (forall h t, timers st' !! h = Some t -> isPoll t = true))
  /\ (forall h audioCtx st fn t,
      wf st ->
      pendingNextBallAction st = Some fn ->
      timers st !! h = Some t -> isPoll t = false ->
      let st' := fire h audioCtx st in
      effects st' = effects st ++ [ClearTimeout h; RunAction fn]
      /\ pendingNextBallAction st' = None
      /\ safetyNetNextBallTimeout st' = None
      /\ timers st' !! h = None
      /\ (forall h' t', timers st' !! h' = Some t' -> isPoll t' = true))
  /\ (forall fn tr st,
      wf st ->
      forallb keepsPendingAction tr = true ->
      let st2 := Run tr (setPendingAction SAFETY_NET_MS fn st) in
      (pendingNextBallAction st2 = Some fn
       /\ actionsRun st2 = actionsRun st
       /\ exists h t, safetyNetNextBallTimeout st2 = Some h
                      /\ timers st2 !! h = Some t /\ isPoll t = false)
      \/ (pendingNextBallAction st2 = None
          /\ actionsRun st2 = actionsRun st ++ [fn]
          /\ forall h t, timers st2 !! h = Some t -> isPoll t = true)).
Proof.
  assert (Hset : forall fn st,
      let st1 := setPendingAction SAFETY_NET_MS fn st in
      pendingNextBallAction st1 = Some fn
      /\ safetyNetNextBallTimeout st1 = Some (nextHandle st)
      /\ timers st1 !! nextHandle st =
           Some {| callback := SafetyNet; delay := SAFETY_NET_MS |}
      /\ actionsRun st1 = actionsRun st).
  { intros fn st st1. subst st1. unfold setPendingAction.
    destruct (safetyNetNextBallTimeout st); log_simpl;
      repeat split; apply lookup_insert_eq. }
  split; [exact Hset | split; [ | split]].
  - intros c audioCtx st fn Hwf Hp Hdeclares st'.
    destruct (wf_safetyNet_armed st Hwf fn Hp) as (hs & ts & Hs & Hts & Hts').
    assert (Howned : forall h t, timers st !! h = Some t -> isPoll t = false -> h = hs).
    { intros h t Hh Ht. pose proof (wf_safetyNet_owned st Hwf h t Hh Ht). congruence. }
    assert (Hck : exists status st0,
      (forall e, In e status -> exists s, e = SetCommentaryStatus s)
      /\ performCheckAndAct c audioCtx st = runPendingNextBallAction st0
      /\ pendingNextBallAction st0 = Some fn
      /\ safetyNetNextBallTimeout st0 = Some hs
      /\ timers st0 = timers st
      /\ effects st0 = effects st ++ status).
    { assert (Hidle : isAudioPlaying st = false \/ runningContext audioCtx = None ->
        exists status st0,
          (forall e, In e status -> exists s, e = SetCommentaryStatus s)
          /\ performCheckAndAct c audioCtx st = runPendingNextBallAction st0
          /\ pendingNextBallAction st0 = Some fn
          /\ safetyNetNextBallTimeout st0 = Some hs
          /\ timers st0 = timers st
          /\ effects st0 = effects st ++ status).
      { intros Hidle. rewrite (check_idle c audioCtx st Hidle).
        destruct (startsWith c _).
        - eexists [_], _. split; [intros e [<- | []]; eauto | ].
          split; [reflexivity | ]. now hook_simpl.
        - exists [], (set_audioCompletionCheckTimeout None st).
          split; [intros e [] | ]. split; [reflexivity | ].
          hook_simpl. now rewrite app_nil_r. }
      destruct Hdeclares as [Hi | [Hi | (ctx & Hr & Hle)]]; [now apply Hidle; left
                                                              | now apply Hidle; right | ].
      destruct (isAudioPlaying st) eqn:Hplaying; [ | now apply Hidle; left].
      rewrite (check_reached c _ _ _ Hplaying Hr Hle).
      eexists [_], _. split; [intros e [<- | []]; eauto | ].
      split; [reflexivity | ]. now hook_simpl. }
    destruct Hck as (status & st0 & Hstatus & Hck & Hp0 & Hs0 & Ht0 & He0).
    rewrite <- Ht0 in Howned.
    destruct (runPendingNextBallAction_consumes st0 fn hs Hp0 Hs0 Howned)
      as (Heff & Hp' & Hs' & Ht' & Hpolls).
    exists hs, status. subst st'. rewrite Hck, Heff, Hp', Hs', Ht', He0.
    repeat split; try assumption.
    + now rewrite <- app_assoc.
    + apply lookup_delete_eq.
    + now rewrite <- Ht'.
  - intros h audioCtx st fn t Hwf Hp Hh Ht st'. subst st'.
    pose proof (wf_safetyNet_owned st Hwf h t Hh Ht) as Hs.
    unfold fire. rewrite Hh.
    destruct t as [[c | ] d]; [discriminate Ht | ]. cbn [callback].
    unfold safetyNetFires, consumeAndRun. hook_simpl. rewrite Hp, Hs. hook_simpl.
    repeat split.
    + now rewrite <- app_assoc.
    + rewrite lookup_delete_None. now left.
    + intros h' t' Hh'. wf_destruct. wf_close.
  - intros fn tr st Hwf Htr st2.
    destruct (Hset fn st) as (Hp1 & _ & _ & Hr1).
    pose proof (run_wf tr _ (setPendingAction_wf fn st Hwf)) as Hwf2. fold st2 in Hwf2.
    destruct (run_pending_some tr _ fn Htr Hp1) as [[Hp2 Hr2] | [Hp2 Hr2]];
      fold st2 in Hp2, Hr2; [left | right].
    + split; [assumption | ]. split; [congruence | ].
      exact (wf_safetyNet_armed st2 Hwf2 fn Hp2).
    + split; [assumption | ]. split; [congruence | ].
      exact (wf_safetyNet_idle st2 Hwf2 Hp2).
Qed.

(** ** Transport failures *)

Lemma idle_arm_completes (c : string) (audioCtx : option AudioContext) (st : Hook) :
  isAudioPlaying st = false ->
  let st' := scheduleAudioCompletionCheck c audioCtx st in
  isAudioPlaying st' = false
  /\ isLiveSessionReady st' = isLiveSessionReady st
  /\ audioCompletionCheckTimeout st' = None
  /\ pendingNextBallAction st' = None
  /\ nextHandle st' = nextHandle st
  /\ actionsRun st' = actionsRun st ++ match pendingNextBallAction st with
                                       | Some fn => [fn]
                                       | None => []
                                       end
  /\ (wf st -> forall h, timers st' !! h = None).
Proof.
  intros Hidle st'.
  assert (Hwf : wf st -> wf st') by apply scheduleAudioCompletionCheck_wf.
  assert (H : isAudioPlaying st' = false
    /\ isLiveSessionReady st' = isLiveSessionReady st
    /\ audioCompletionCheckTimeout st' = None
    /\ pendingNextBallAction st' = None
    /\ nextHandle st' = nextHandle st
    /\ actionsRun st' = actionsRun st ++ match pendingNextBallAction st with
                                         | Some fn => [fn]
                                         | None => []
                                         end).
  { subst st'. unfold scheduleAudioCompletionCheck.
    rewrite check_idle by (left; now destruct (audioCompletionCheckTimeout st)).
    unfold runPendingNextBallAction. hook_cases; log_simpl; repeat split; congruence. }
  destruct H as (H1 & H2 & H3 & H4 & H5 & H6). repeat split; try assumption.
  intros Hst h. specialize (Hwf Hst).
  destruct (timers st' !! h) as [t | ] eqn:Hh; [exfalso | reflexivity].
  pose proof (wf_safetyNet_idle st' Hwf H4 h t Hh) as Hp.
  pose proof (wf_poll_owned st' Hwf h t Hh Hp). congruence.
Qed.

(** C7. A transport error and a session close each clear the playing flag
    and arm the detector; the check that the arm runs at once takes the
    idle branch whatever the clock and the output sink are: it installs
    no poll, declares completion and runs the pending next-ball action if
    there is one.  This holds from every state, so in particular when the
    event arrives while audio is playing. *)
Theorem transport_failure_runs_pending_action :
  forall c audioCtx st,
    (let st' := onerror c audioCtx st in
     isAudioPlaying st' = false
     /\ isLiveSessionReady st' = false
     /\ audioCompletionCheckTimeout st' = None
     /\ pendingNextBallAction st' = None
     /\ nextHandle st' = nextHandle st
     /\ actionsRun st' = actionsRun st ++ match pendingNextBallAction st with
                                          | Some fn => [fn]
                                          | None => []
                                          end
     /\ (wf st -> forall h, timers st' !! h = None))
    /\ (let st' := onclose c audioCtx st in
        isAudioPlaying st' = false
        /\ isLiveSessionReady st' = false
        /\ audioCompletionCheckTimeout st' = None
        /\ pendingNextBallAction st' = None
        /\ nextHandle st' = nextHandle st
        /\ actionsRun st' = actionsRun st ++ match pendingNextBallAction st with
                                             | Some fn => [fn]
                                             | None => []
                                             end
        /\ (wf st -> forall h, timers st' !! h = None)).
Proof.
  intros c audioCtx st. split.
  - intros st'. subst st'. unfold onerror.
    match goal with
    | |- context [scheduleAudioCompletionCheck c audioCtx ?s] =>
        destruct (idle_arm_completes c audioCtx s eq_refl) as (H1 & H2 & H3 & H4 & H5 & H6 & H7)
    end.
    repeat split; try assumption.
    + rewrite H6. log_simpl. reflexivity.
    + intros Hwf. apply H7. wf_auto.
  - intros st'. subst st'. unfold onclose.
    match goal with
    | |- context [scheduleAudioCompletionCheck c audioCtx ?s] =>
        destruct (idle_arm_completes c audioCtx s eq_refl) as (H1 & H2 & H3 & H4 & H5 & H6 & H7)
    end.
    repeat split; try assumption.
    + rewrite H6. log_simpl. reflexivity.
    + intros Hwf. apply H7. wf_auto.
Qed.

(** ** The status is an output *)

Lemma forgetTimerStatus_idem (m : gmap Handle Timer) :
  forgetTimerStatus <$> (forgetTimerStatus <$> m) = forgetTimerStatus <$> m.
Proof.
  rewrite <- map_fmap_compose. apply map_fmap_ext.
  intros h [[c | ] d] _; reflexivity.
Qed.

Lemma schedulingEffect_idem (l : list Effect) :
  omap schedulingEffect (omap schedulingEffect l) = omap schedulingEffect l.
Proof.
  induction l as [ | e l IH]; [reflexivity | ].
  destruct e as [ | ? [ | ] ? | | | | | | | ]; cbn; now rewrite ?IH.
Qed.

(** Reading a field of the scheduling view. *)
Ltac view_proj :=
  repeat match goal with
         | |- context [liveSession (scheduling ?s)] =>
             change (liveSession (scheduling s)) with (liveSession s)
         | |- context [isLiveSessionReady (scheduling ?s)] =>
             change (isLiveSessionReady (scheduling s)) with (isLiveSessionReady s)
         | |- context [nextStartTime (scheduling ?s)] =>
             change (nextStartTime (scheduling s)) with (nextStartTime s)
         | |- context [isAudioPlaying (scheduling ?s)] =>
             change (isAudioPlaying (scheduling s)) with (isAudioPlaying s)
         | |- context [pendingNextBallAction (scheduling ?s)] =>
             change (pendingNextBallAction (scheduling s)) with (pendingNextBallAction s)
         | |- context [audioCompletionCheckTimeout (scheduling ?s)] =>
             change (audioCompletionCheckTimeout (scheduling s))
               with (audioCompletionCheckTimeout s)
         | |- context [safetyNetNextBallTimeout (scheduling ?s)] =>
             change (safetyNetNextBallTimeout (scheduling s))
               with (safetyNetNextBallTimeout s)
         | |- context [nextHandle (scheduling ?s)] =>
             change (nextHandle (scheduling s)) with (nextHandle s)
         | |- context [timers (scheduling ?s)] =>
             change (timers (scheduling s)) with (forgetTimerStatus <$> timers s)
         end.

Ltac view_cases :=
  repeat (hook_simpl; view_proj;
          match goal with
          | H : ?x = _ |- context [match ?x with _ => _ end] => rewrite H
          | |- context [match ?x with _ => _ end] =>
              lazymatch x with
              | context [match _ with _ => _ end] => fail
              | _ => destruct x eqn:?
              end
          end);
  hook_simpl; view_proj.

Ltac view_fields :=
  unfold scheduling; hook_simpl;
  f_equal;
  rewrite ?omap_app, ?fmap_insert, ?fmap_delete, ?forgetTimerStatus_idem,
    ?schedulingEffect_idem;
  simpl; rewrite ?app_nil_r;
  try reflexivity.

Lemma scheduling_step (st : Hook) (e : Event) :
  scheduling (Step st e) = scheduling (Step (scheduling st) (withoutStatus e)).
Proof.
  destruct e; cbn [withoutStatus]; hook_unfold.
  all: change (startsWith EmptyString "🎙️ Speaking") with false; cbv iota.
  10: { view_cases; view_fields. }
  9: { view_proj. rewrite lookup_fmap.
       destruct (timers st !! h) as [[[c | ] d] | ]; cbn [fmap option_fmap option_map];
         cbn [callback forgetTimerStatus forgetStatus];
         view_cases; view_fields. }
  all: view_cases; view_fields.
Qed.

Lemma scheduling_run (tr1 tr2 : list Event) (st1 st2 : Hook) :
  withoutStatus <$> tr1 = withoutStatus <$> tr2 ->
  scheduling st1 = scheduling st2 ->
  scheduling (Run tr1 st1) = scheduling (Run tr2 st2).
Proof.
  revert tr2 st1 st2. induction tr1 as [ | e1 tr1 IH]; intros [ | e2 tr2] st1 st2 Htr Hst;
    try discriminate Htr; [assumption | ].
  injection Htr as He Htr. rewrite !run_cons. apply IH; [assumption | ].
  rewrite (scheduling_step st1 e1), (scheduling_step st2 e2). congruence.
Qed.

(** C9, as the code has it. The status never steers the scheduling: two
    runs of the hook that receive the same events and start from states
    with the same cursor, flags, pending action, timer handles, timers and
    logged calls, and that differ only in the status strings (the React
    state and the values the closures captured) agree on all of these
    afterwards.  The captured status is read at one place, the idle branch
    of the check, and there it decides one thing only: whether the status
    itself is reset. *)
Theorem status_never_steers_scheduling :
  (forall tr1 tr2 st1 st2,
      withoutStatus <$> tr1 = withoutStatus <$> tr2 ->
      scheduling st1 = scheduling st2 ->
      scheduling (Run tr1 st1) = scheduling (Run tr2 st2))
  /\ (forall c audioCtx st,
      isAudioPlaying st = false \/ runningContext audioCtx = None ->
      commentaryStatus (performCheckAndAct c audioCtx st) =
        if startsWith c "🎙️ Speaking" then readyOrDisconnected st else commentaryStatus st).
Proof.
  split; [exact scheduling_run | ].
  intros c audioCtx st Hidle. rewrite (check_idle c audioCtx st Hidle).
  unfold runPendingNextBallAction. hook_cases; reflexivity.
Qed.

(** ** The audio context *)

(** X1. [initAudioContext] returns normally only with a running context
    in the ref.  It never replaces a context that exists, makes no call at
    all when the context is already running, and calls [resume] exactly
    when the context it holds or creates is suspended; a closed context
    makes it throw without any call. *)
Theorem initAudioContext_leaves_running_context :
  forall created resumed audioCtx ref calls completion,
    initAudioContext created resumed audioCtx = (ref, calls, completion) ->
    (completion = Returned -> isRunning ref = true)
    /\ (isRunning audioCtx = true -> ref = audioCtx /\ calls = [] /\ completion = Returned)
    /\ (In NewAudioContext calls <-> audioCtx = None)
    /\ (In Resume calls <->
          match audioCtx with
          | Some ctx => state ctx = suspended
          | None => state created = suspended
          end)
    /\ (forall ctx, audioCtx = Some ctx -> state ctx = closed ->
          ref = audioCtx /\ calls = [] /\ completion = Threw).
Proof.
  intros created resumed audioCtx ref calls completion H.
  unfold initAudioContext, isRunning in *.
  destruct audioCtx as [[[ | | ] t] | ]; cbn [state] in H.
  4: destruct created as [[ | | ] t]; cbn [state] in H.
  all: try (destruct resumed as [[[ | | ] t'] | ]; cbn [state app] in H).
  all: injection H as <- <- <-; cbn [state In].
  all: repeat split; intros;
    repeat match goal with
           | H : _ \/ _ |- _ => destruct H
           | H : False |- _ => destruct H
           | H : Some _ = Some _ |- _ => injection H as H; subst
           end;
    try discriminate; try congruence; try reflexivity; auto.
Qed.

(** ** Starting a session *)

(** What [initLiveSession] has done when it reaches the connection request
    and when it throws before. *)
Lemma initLiveSession_outcome :
  forall ok audioCtx st,
    let st' := fst (initLiveSession initialSystemPrompt ok audioCtx st) in
    let completion := snd (initLiveSession initialSystemPrompt ok audioCtx st) in
    let closing := if liveSession st then [SessionClose] else [] in
    (completion = Returned <-> ok = true /\ isRunning audioCtx = true)
    /\ (completion = Returned ->
        effects st' = effects st ++ closing ++
          [SetCommentaryStatus "🔌 Connecting Live..."; LiveConnect initialSystemPrompt]
        /\ isAudioPlaying st' = false
        /\ exists ctx, audioCtx = Some ctx /\ nextStartTime st' = currentTime ctx)
    /\ (completion = Threw ->
        (exists s, effects st' = effects st ++ closing ++ [SetCommentaryStatus s])
        /\ nextStartTime st' = nextStartTime st
        /\ isAudioPlaying st' = isAudioPlaying st)
    /\ liveSession st' = false
    /\ (liveSession st = true -> isLiveSessionReady st' = false)
    /\ pendingNextBallAction st' = pendingNextBallAction st
    /\ audioCompletionCheckTimeout st' = audioCompletionCheckTimeout st
    /\ safetyNetNextBallTimeout st' = safetyNetNextBallTimeout st
    /\ timers st' = timers st.
Proof.
  intros ok audioCtx st. unfold initLiveSession, runningContext.
  destruct ok, audioCtx as [ctx | ]; cbn [negb];
    try destruct (isRunning (Some ctx)) eqn:Hrun;
    destruct (liveSession st) eqn:Hlive; hook_simpl;
    rewrite <- ?app_assoc; cbn [app];
    repeat split; intros;
    repeat match goal with
           | H : _ /\ _ |- _ => destruct H
           end;
    try discriminate; try congruence; eauto.
Qed.

(** X2. [initLiveSession] reaches the connection request exactly when the
    audio context could be initialised and is running.  It then has closed
    the session it held, reset the cursor to the clock and cleared the
    playing flag, and its last two steps are the connecting status and
    the request.  When it throws, it has requested no connection and has
    left the cursor and the playing flag alone, but it has still closed
    and dropped the session it held.  In either case it leaves the pending
    action, the timer handles and the outstanding timeouts untouched. *)
Theorem initLiveSession_connects_only_with_running_audio :
  forall ok audioCtx st,
    let st' := fst (initLiveSession initialSystemPrompt ok audioCtx st) in
    let completion := snd (initLiveSession initialSystemPrompt ok audioCtx st) in
    let closing := if liveSession st then [SessionClose] else [] in
    (completion = Returned <-> ok = true /\ isRunning audioCtx = true)
    /\ (completion = Returned ->
        effects st' = effects st ++ closing ++
          [SetCommentaryStatus "🔌 Connecting Live..."; LiveConnect initialSystemPrompt]
        /\ isAudioPlaying st' = false
        /\ exists ctx, audioCtx = Some ctx /\ nextStartTime st' = currentTime ctx)
    /\ (completion = Threw ->
        (exists s, effects st' = effects st ++ closing ++ [SetCommentaryStatus s])
        /\ nextStartTime st' = nextStartTime st
        /\ isAudioPlaying st' = isAudioPlaying st)
    /\ liveSession st' = false
    /\ (liveSession st = true -> isLiveSessionReady st' = false)
    /\ pendingNextBallAction st' = pendingNextBallAction st
    /\ audioCompletionCheckTimeout st' = audioCompletionCheckTimeout st
    /\ safetyNetNextBallTimeout st' = safetyNetNextBallTimeout st
    /\ timers st' = timers st.
Proof. exact initLiveSession_outcome. Qed.

(** X3. A restart does not cancel the completion detector.  A poll that is
    outstanding when [initLiveSession] reaches its connection request is
    still outstanding afterwards, and when it fires before any new chunk
    it finds the playing flag cleared: whatever the clock, it declares
    completion at once and runs the pending action. *)
Theorem restart_keeps_poll_that_completes_at_once :
  forall ok audioCtx st st' h t audioCtx',
    initLiveSession initialSystemPrompt ok audioCtx st = (st', Returned) ->
    timers st !! h = Some t -> isPoll t = true ->
    timers st' !! h = Some t
    /\ isAudioPlaying (fire h audioCtx' st') = false
    /\ pendingNextBallAction (fire h audioCtx' st') = None
    /\ audioCompletionCheckTimeout (fire h audioCtx' st') = None
    /\ actionsRun (fire h audioCtx' st') =
         actionsRun st ++ match pendingNextBallAction st with
                          | Some fn => [fn]
                          | None => []
                          end.
Proof.
  intros ok audioCtx st st' h t audioCtx' Hinit Hh Ht.
  destruct (initLiveSession_outcome ok audioCtx st)
    as (_ & Hret & _ & _ & _ & Hp & _ & _ & Htimers).
  rewrite Hinit in Hret, Hp, Htimers. cbn [fst snd] in Hret, Hp, Htimers.
  destruct (Hret eq_refl) as (Heff & Hidle & _).
  rewrite Htimers. split; [assumption | ].
  unfold fire. rewrite Htimers, Hh.
  destruct t as [[c | ] d]; [ | discriminate Ht]. cbn [callback].
  rewrite check_idle by (left; exact Hidle).
  rewrite runPendingNextBallAction_actionsRun.
  assert (Hrun : actionsRun st' = actionsRun st).
  { unfold actionsRun. rewrite Heff, !omap_app.
    destruct (liveSession st); cbn; now rewrite app_nil_r. }
  unfold runPendingNextBallAction.
  destruct (startsWith c _); hook_simpl; rewrite ?Hp;
    destruct (pendingNextBallAction st); hook_simpl;
    try destruct (safetyNetNextBallTimeout st'); hook_simpl;
    repeat split; try assumption; log_simpl; unfold actionsRun in Hrun;
    rewrite ?omap_app; cbn; rewrite ?app_nil_r; congruence.
Qed.

(** ** Asking for commentary *)

(** X4. [triggerDynamicCommentary] answers [true] exactly when the API
    key, the session and its readiness are all there, a non-empty prompt
    was created and the send succeeded; it has then sent that prompt and
    changed nothing but the status.  Without key, session or readiness it
    fails closed: it answers [false] and changes nothing at all.  When
    the created prompt is empty it answers [false] and leaves the status
    at the creating one. *)
Theorem triggerDynamicCommentary_accepts_only_sent_prompts :
  forall c audioCtx apiKey promptText sendOk st,
    let st' := fst (triggerDynamicCommentary c audioCtx apiKey promptText sendOk st) in
    let accepted := snd (triggerDynamicCommentary c audioCtx apiKey promptText sendOk st) in
    (accepted = true <->
       apiKey = true /\ liveSession st = true /\ isLiveSessionReady st = true
       /\ sendOk = true
       /\ exists text, promptText = Some text /\ text <> EmptyString)
    /\ (apiKey = false \/ liveSession st = false \/ isLiveSessionReady st = false ->
        st' = st /\ accepted = false)
    /\ (accepted = true ->
        exists text, promptText = Some text
          /\ effects st' = effects st ++
               [SetCommentaryStatus "📝 Creating prompt...";
                SetCommentaryStatus "💬 Sending..."; SendRealtimeInput text]
          /\ scheduling st' =
               scheduling (emit (SendRealtimeInput text) st))
    /\ (apiKey = true -> liveSession st = true -> isLiveSessionReady st = true ->
        promptText = Some EmptyString ->
        st' = setCommentaryStatus "📝 Creating prompt..." st /\ accepted = false).
Proof.
  intros c audioCtx apiKey promptText sendOk st. unfold triggerDynamicCommentary.
  destruct apiKey, (liveSession st) eqn:Hl, (isLiveSessionReady st) eqn:Hr;
    cbn [negb orb fst snd].
  2-8: repeat split; intros;
    repeat match goal with
           | H : _ /\ _ |- _ => destruct H
           | H : _ \/ _ |- _ => destruct H
           end; try discriminate; try congruence.
  destruct promptText as [[ | a text] | ]; [ | destruct sendOk | ]; cbn [fst snd].
  all: repeat split; intros;
    repeat match goal with
           | H : _ /\ _ |- _ => destruct H
           | H : _ \/ _ |- _ => destruct H
           | H : exists _, _ |- _ => destruct H
           | H : Some _ = Some _ |- _ => injection H as H; subst
           end; try discriminate; try congruence.
  - eexists. split; [reflexivity | discriminate].
  - eexists. split; [reflexivity | ]. hook_simpl. split.
    + now rewrite <- !app_assoc.
    + unfold scheduling. hook_simpl. f_equal.
      rewrite !omap_app. cbn. now rewrite !app_nil_r.
Qed.

(** X5. When creating or sending the prompt throws,
    [triggerDynamicCommentary] answers [false], clears the playing flag
    and arms the detector, whose check completes at once: no poll is left
    and the pending next-ball action has run. *)
Theorem triggerDynamicCommentary_failure_runs_pending_action :
  forall c audioCtx promptText sendOk st,
    liveSession st = true -> isLiveSessionReady st = true ->
    promptText = None \/ (sendOk = false /\ promptText <> Some EmptyString) ->
    let st' := fst (triggerDynamicCommentary c audioCtx true promptText sendOk st) in
    snd (triggerDynamicCommentary c audioCtx true promptText sendOk st) = false
    /\ isAudioPlaying st' = false
    /\ audioCompletionCheckTimeout st' = None
    /\ pendingNextBallAction st' = None
    /\ nextHandle st' = nextHandle st
    /\ actionsRun st' = actionsRun st ++ match pendingNextBallAction st with
                                         | Some fn => [fn]
                                         | None => []
                                         end.
Proof.
  intros c audioCtx promptText sendOk st Hl Hr Hfail.
  unfold triggerDynamicCommentary. rewrite Hl, Hr. cbn [negb orb].
  assert (Hcase : forall st0,
    isLiveSessionReady st0 = isLiveSessionReady st ->
    pendingNextBallAction st0 = pendingNextBallAction st ->
    nextHandle st0 = nextHandle st ->
    actionsRun st0 = actionsRun st ->
    let st' := scheduleAudioCompletionCheck c audioCtx
                 (set_isAudioPlaying false
                    (setCommentaryStatus "⚠️ Comm. Send Err" st0)) in
    isAudioPlaying st' = false
    /\ audioCompletionCheckTimeout st' = None
    /\ pendingNextBallAction st' = None
    /\ nextHandle st' = nextHandle st
    /\ actionsRun st' = actionsRun st ++ match pendingNextBallAction st with
                                         | Some fn => [fn]
                                         | None => []
                                         end).
  { intros st0 H1 H2 H3 H4 st'.
    destruct (idle_arm_completes c audioCtx
                (set_isAudioPlaying false (setCommentaryStatus "⚠️ Comm. Send Err" st0))
                eq_refl) as (G1 & _ & G3 & G4 & G5 & G6 & _).
    fold st' in G1, G3, G4, G5, G6. repeat split; try assumption.
    - rewrite G5. exact H3.
    - rewrite G6. hook_simpl. rewrite H2. f_equal.
      rewrite <- H4. unfold actionsRun. hook_simpl.
      rewrite omap_app. cbn. now rewrite app_nil_r. }
  destruct Hfail as [-> | [-> Hne]].
  - cbn [fst snd]. split; [reflexivity | ].
    apply Hcase; try reflexivity.
    unfold actionsRun. hook_simpl. rewrite omap_app. cbn. now rewrite app_nil_r.
  - destruct promptText as [[ | a text] | ]; [congruence | | ]; cbn [fst snd].
    + split; [reflexivity | ]. apply Hcase; try reflexivity.
      unfold actionsRun. hook_simpl. rewrite !omap_app. cbn. now rewrite !app_nil_r.
    + split; [reflexivity | ]. apply Hcase; try reflexivity.
      unfold actionsRun. hook_simpl. rewrite omap_app. cbn. now rewrite app_nil_r.
Qed.

(** Readiness is only ever set by [onopen]. *)
Lemma step_stays_unready (st : Hook) (e : Event) :
  notOnOpen e = true -> isLiveSessionReady st = false ->
  isLiveSessionReady (Step st e) = false.
Proof.
  intros He Hr. destruct e; try discriminate He; hook_unfold; hook_cases;
    try assumption; reflexivity.
Qed.

(** X6. After a transport error or a close, no commentary is sent until
    the session opens again: over any sequence of callbacks without an
    [onopen], the session stays unready and [triggerDynamicCommentary]
    answers [false] without an effect. *)
Theorem no_prompt_is_sent_after_disconnect :
  (forall c audioCtx st,
      isLiveSessionReady (onerror c audioCtx st) = false
      /\ isLiveSessionReady (onclose c audioCtx st) = false)
  /\ (forall tr st,
      isLiveSessionReady st = false ->
      forallb notOnOpen tr = true ->
      isLiveSessionReady (Run tr st) = false
      /\ forall c audioCtx apiKey promptText sendOk,
           triggerDynamicCommentary c audioCtx apiKey promptText sendOk (Run tr st)
           = (Run tr st, false)).
Proof.
  split.
  - intros c audioCtx st. split.
    + unfold onerror.
      match goal with
      | |- context [scheduleAudioCompletionCheck c audioCtx ?s] =>
          destruct (idle_arm_completes c audioCtx s eq_refl) as (_ & H & _)
      end.
      exact H.
    + unfold onclose.
      match goal with
      | |- context [scheduleAudioCompletionCheck c audioCtx ?s] =>
          destruct (idle_arm_completes c audioCtx s eq_refl) as (_ & H & _)
      end.
      exact H.
  - assert (Hrun : forall tr st, isLiveSessionReady st = false ->
              forallb notOnOpen tr = true -> isLiveSessionReady (Run tr st) = false).
    { induction tr as [ | e tr IH]; intros st Hr Htr; [assumption | ].
      cbn [forallb] in Htr. apply andb_prop in Htr as [He Htr].
      change (isLiveSessionReady (Run tr (Step st e)) = false).
      apply IH; [ | assumption]. now apply step_stays_unready. }
    intros tr st Hr Htr. specialize (Hrun tr st Hr Htr). split; [assumption | ].
    intros c audioCtx apiKey promptText sendOk. unfold triggerDynamicCommentary.
    rewrite Hrun. now rewrite !orb_true_r.
Qed.

(** ** The timeline of the chunks *)

Lemma noOverlap_app (l1 l2 : list (Q * Q)) :
  noOverlap l1 -> noOverlap l2 ->
  (forall c1 c2, In c1 l1 -> In c2 l2 -> fst c1 + snd c1 <= fst c2) ->
  noOverlap (l1 ++ l2).
Proof.
  induction l1 as [ | c l1 IH]; intros H1 H2 H12; [assumption | ].
  destruct H1 as [Hc H1]. cbn [app noOverlap]. split.
  - apply Forall_app. split; [assumption | ].
    apply List.Forall_forall. intros c2 Hc2. apply H12; [now left | assumption].
  - apply IH; [assumption | assumption | ].
    intros c1 c2 Hc1 Hc2. apply H12; [now right | assumption].
Qed.




(** X8. A message that does not complete the turn never runs the pending
    action and never touches a timer: whatever it carries, the pending
    action, both timer handles and the outstanding timeouts are as
    before, and the playing flag is never cleared by it. *)
Theorem chunk_message_never_runs_pending_action :
  forall c audioCtx message st,
    isTurnComplete message = false ->
    let st' := fst (onmessage decodeAudio c audioCtx message st) in
    actionsRun st' = actionsRun st
    /\ pendingNextBallAction st' = pendingNextBallAction st
    /\ audioCompletionCheckTimeout st' = audioCompletionCheckTimeout st
    /\ safetyNetNextBallTimeout st' = safetyNetNextBallTimeout st
    /\ timers st' = timers st
    /\ nextHandle st' = nextHandle st
    /\ (isAudioPlaying st = true -> isAudioPlaying st' = true).
Proof.
  intros c audioCtx message st Htc. unfold isTurnComplete in Htc.
  unfold onmessage, playAudioPart.
  destruct (serverContent message) as [content | ]; [ | now repeat split].
  rewrite Htc. hook_cases; log_simpl; repeat split; auto.
Qed.

(** ** The polling loop *)

(** X9. One re-check is enough.  When a check finds the threshold not yet
    reached, the delay it asks for carries the clock past the expected end
    plus the margin: if the poll fires no earlier than that delay on the
    audio clock and no chunk has arrived meanwhile, it declares completion,
    clears the flag and runs the pending action. *)
Theorem one_recheck_completes :
  forall c audioCtx ctx st t,
    isAudioPlaying st = true ->
    runningContext audioCtx = Some ctx ->
    currentTime ctx < nextStartTime st - MARGIN_SECONDS ->
    timeToWait (nextStartTime st) (currentTime ctx) <= (t - currentTime ctx) * 1000 ->
    let st' := pollAt (performCheckAndAct c audioCtx st) t in
    nextStartTime st + MARGIN_SECONDS <= t
    /\ isAudioPlaying st' = false
    /\ audioCompletionCheckTimeout st' = None
    /\ pendingNextBallAction st' = None
    /\ actionsRun st' = actionsRun st ++ match pendingNextBallAction st with
                                         | Some fn => [fn]
                                         | None => []
                                         end.
Proof.
  intros c audioCtx ctx st t Hplaying Hr Hlt Hwait st'.
  assert (Hend : nextStartTime st + MARGIN_SECONDS <= t).
  { unfold timeToWait in Hwait.
    pose proof (Q.le_max_r CHECK_INTERVAL_MS
                  ((nextStartTime st - currentTime ctx + MARGIN_SECONDS) * 1000)).
    lra. }
  split; [assumption | ].
  assert (Harmed : armed (performCheckAndAct c audioCtx st)
                   /\ nextStartTime (performCheckAndAct c audioCtx st) = nextStartTime st
                   /\ pendingNextBallAction (performCheckAndAct c audioCtx st)
                      = pendingNextBallAction st
                   /\ actionsRun (performCheckAndAct c audioCtx st) = actionsRun st).
  { rewrite (check_not_reached c _ _ _ Hplaying Hr Hlt). unfold armed, actionsRun.
    hook_simpl. repeat split; try assumption.
    - eexists _, _. split; [reflexivity | ].
      split; [apply lookup_insert_eq | reflexivity].
    - rewrite omap_app. cbn. now rewrite app_nil_r. }
  destruct Harmed as (Harmed & Hcur & Hp & Hrun).
  destruct (pollAt_reached _ t Harmed) as (G1 & G2 & G3 & G4).
  { rewrite Hcur. unfold MARGIN_SECONDS in *. lra. }
  fold st' in G1, G2, G3, G4. rewrite Hp, Hrun in G4. repeat split; assumption.
Qed.

(** ** An output sink that is not running *)

(** X10. While the audio context is missing or not running, a chunk that
    arrives is dropped without a trace: the decoder is not consulted,
    nothing is started, the handler returns normally, and a message that
    does not complete the turn leaves the whole state as it was.  A check
    made in that situation declares completion at once, running the
    pending action and installing no poll, but it leaves the playing flag
    as it finds it: a flag that was set stays set. *)
Theorem sink_not_running_drops_chunks_and_completes :
  (forall c audioCtx message st,
      runningContext audioCtx = None ->
      snd (onmessage decodeAudio c audioCtx message st) = Returned
      /\ chunksStarted (fst (onmessage decodeAudio c audioCtx message st))
         = chunksStarted st
      /\ nextStartTime (fst (onmessage decodeAudio c audioCtx message st))
         = nextStartTime st
      /\ isAudioPlaying (fst (onmessage decodeAudio c audioCtx message st))
         = isAudioPlaying st
      /\ (isTurnComplete message = false ->
          fst (onmessage decodeAudio c audioCtx message st) = st))
  /\ (forall c audioCtx st,
      runningContext audioCtx = None ->
      let st' := performCheckAndAct c audioCtx st in
      isAudioPlaying st' = isAudioPlaying st
      /\ audioCompletionCheckTimeout st' = None
      /\ nextHandle st' = nextHandle st
      /\ pendingNextBallAction st' = None
      /\ actionsRun st' = actionsRun st ++ match pendingNextBallAction st with
                                           | Some fn => [fn]
                                           | None => []
                                           end).
Proof.
  split.
  - intros c audioCtx message st Hr. unfold isTurnComplete, onmessage, playAudioPart.
    rewrite Hr. destruct (serverContent message) as [content | ]; [ | now repeat split].
    unfold scheduleAudioCompletionCheck, performCheckAndAct, runPendingNextBallAction.
    rewrite Hr. unfold chunksStarted.
    hook_cases; hook_simpl; rewrite ?omap_app; cbn [omap list_omap startedChunk];
      rewrite ?app_nil_r; repeat split; intros; try reflexivity; try discriminate;
      try congruence.
  - intros c audioCtx st Hr st'. subst st'.
    rewrite (check_idle c audioCtx st) by now right.
    rewrite runPendingNextBallAction_actionsRun.
    unfold runPendingNextBallAction. hook_cases; log_simpl; repeat split; congruence.
Qed.

End Properties.

(** ** The two copies *)

Lemma withoutPrompt_idem (l : list Effect) :
  withoutPrompt <$> (withoutPrompt <$> l) = withoutPrompt <$> l.
Proof.
  rewrite <- list_fmap_compose. apply list_fmap_ext. now intros _ [] _.
Qed.

Ltac obs_proj :=
  repeat match goal with
         | |- context [liveSession (observable ?s)] =>
             change (liveSession (observable s)) with (liveSession s)
         | |- context [isLiveSessionReady (observable ?s)] =>
             change (isLiveSessionReady (observable s)) with (isLiveSessionReady s)
         | |- context [nextStartTime (observable ?s)] =>
             change (nextStartTime (observable s)) with (nextStartTime s)
         | |- context [isAudioPlaying (observable ?s)] =>
             change (isAudioPlaying (observable s)) with (isAudioPlaying s)
         | |- context [pendingNextBallAction (observable ?s)] =>
             change (pendingNextBallAction (observable s)) with (pendingNextBallAction s)
         | |- context [audioCompletionCheckTimeout (observable ?s)] =>
             change (audioCompletionCheckTimeout (observable s))
               with (audioCompletionCheckTimeout s)
         | |- context [safetyNetNextBallTimeout (observable ?s)] =>
             change (safetyNetNextBallTimeout (observable s))
               with (safetyNetNextBallTimeout s)
         | |- context [nextHandle (observable ?s)] =>
             change (nextHandle (observable s)) with (nextHandle s)
         | |- context [timers (observable ?s)] =>
             change (timers (observable s)) with (timers s)
         end.

Ltac obs_cases :=
  repeat (hook_simpl; obs_proj;
          match goal with
          | H : ?x = _ |- context [match ?x with _ => _ end] => rewrite H
          | |- context [match ?x with _ => _ end] =>
              lazymatch x with
              | context [match _ with _ => _ end] => fail
              | _ => destruct x eqn:?
              end
          end);
  hook_simpl; obs_proj.

Ltac obs_fields :=
  unfold observable; hook_simpl;
  f_equal;
  rewrite ?fmap_app, ?withoutPrompt_idem;
  try reflexivity.

Section Copies.

Variable decodeAudio : string -> option AudioBuffer.
Variable SAFETY_NET_MS : Q.

(** One callback of the hook under either system prompt leaves states that
    differ in nothing but the prompt of a connection request. *)
Lemma observable_step (prompt1 prompt2 : string) (st : Hook) (e : Event) :
  observable (step prompt1 decodeAudio SAFETY_NET_MS st e) =
  observable (step prompt2 decodeAudio SAFETY_NET_MS (observable st) e).
Proof.
  destruct e; hook_unfold; obs_cases; obs_fields.
Qed.

Lemma observable_run (prompt1 prompt2 : string) (tr : list Event) (st1 st2 : Hook) :
  observable st1 = observable st2 ->
  observable (run prompt1 decodeAudio SAFETY_NET_MS tr st1) =
  observable (run prompt2 decodeAudio SAFETY_NET_MS tr st2).
Proof.
  revert st1 st2. induction tr as [ | e tr IH]; intros st1 st2 Hst; [assumption | ].
  cbn [run fold_left]. apply IH.
  rewrite (observable_step prompt1 prompt2 st1 e),
    (observable_step prompt2 prompt2 st2 e).
  congruence.
Qed.

(** C10. The copy of the hook in components/GameCanvas.tsx and the one in
    hooks/useLiveCommentary.ts behave alike: on the same sequence of
    callbacks, with the same clock readings and decoder, from the same
    state, they reach states with the same cursor, flags, pending action,
    timers and status, and the same log of chunk starts, timer calls,
    status updates and action runs.  They differ in the system prompt
    they send with a connection request, and in nothing else. *)
Theorem copies_behave_alike :
  (forall tr st,
      observable (GameCanvasTsx.run decodeAudio SAFETY_NET_MS tr st) =
      observable (UseLiveCommentaryTs.run decodeAudio SAFETY_NET_MS tr st))
  /\ (forall tr st,
      actionsRun (GameCanvasTsx.run decodeAudio SAFETY_NET_MS tr st) =
      actionsRun (UseLiveCommentaryTs.run decodeAudio SAFETY_NET_MS tr st))
  /\ GameCanvasTsx.initialSystemPrompt <> UseLiveCommentaryTs.initialSystemPrompt.
Proof.
  assert (Hobs : forall tr st,
      observable (GameCanvasTsx.run decodeAudio SAFETY_NET_MS tr st) =
      observable (UseLiveCommentaryTs.run decodeAudio SAFETY_NET_MS tr st)).
  { intros tr st. now apply observable_run. }
  split; [exact Hobs | split].
  - intros tr st. unfold actionsRun.
    pose proof (f_equal effects (Hobs tr st)) as He. cbn [observable effects] in He.
    assert (Hran : forall l : list Effect,
      omap ranAction (withoutPrompt <$> l) = omap ranAction l).
    { induction l as [ | [] l IH]; cbn; now rewrite ?IH. }
    now rewrite <- Hran, He, Hran.
  - discriminate.
Qed.

End Copies.

(** * The properties on the scenarios *)

Lemma scenarioDecoder_nonneg (payload : string) (audioBuffer : AudioBuffer) :
  scenarioDecoder payload = Some audioBuffer -> 0 <= duration audioBuffer.
Proof.
  unfold scenarioDecoder.
  destruct (String.eqb payload "1s"); [intros [= <-]; discriminate | ].
  destruct (String.eqb payload "0.8s"); [intros [= <-]; discriminate | ].
  destruct (String.eqb payload "0.5s"); [intros [= <-]; discriminate | ].
  discriminate.
Defined.

Lemma sessionStarted_wf : wf sessionStarted.
Proof. apply run_wf, initialHook_wf. Qed.

Lemma afterTwoChunks_wf : wf afterTwoChunks.
Proof. apply run_wf, sessionStarted_wf. Qed.

(** C1 on a race the safety net wins: action 7 is set, a chunk of one
    second completes its turn and arms the detector, the safety net fires
    first, and the detector's poll fires after the audio has ended.  The
    action has run once. *)
Lemma pending_action_runs_exactly_once_witness :
  let race := [OnMessage EmptyString (runningAt 10) (audioChunk "1s" true);
               TimeoutFires 1 (runningAt 10.5);
               TimeoutFires 2 (runningAt 12)] in
  let st := scenarioRun race (setPendingAction 20000 7%nat sessionStarted) in
  pendingNextBallAction st = None
  /\ actionsRun st = [7%nat]
  /\ forall h t, timers st !! h = Some t -> isPoll t = true.
Proof.
  destruct (pending_action_runs_exactly_once
              UseLiveCommentaryTs.initialSystemPrompt scenarioDecoder 20000)
    as (_ & _ & _ & Htrace).
  destruct (Htrace 7%nat
              [OnMessage EmptyString (runningAt 10) (audioChunk "1s" true);
               TimeoutFires 1 (runningAt 10.5);
               TimeoutFires 2 (runningAt 12)]
              sessionStarted sessionStarted_wf eq_refl)
    as [(Hp & _) | (Hp & Hr & Ht)].
  - vm_compute in Hp. discriminate Hp.
  - exact (conj Hp (conj Hr Ht)).
Defined.

(** The other order of the same race: the detector's poll fires after the
    audio has ended and runs the action; the safety net was cancelled, so
    its handle is spent and the action has still run once. *)
Example detector_wins_the_race :
  let race := [OnMessage EmptyString (runningAt 10) (audioChunk "1s" true);
               TimeoutFires 2 (runningAt 12);
               TimeoutFires 1 (runningAt 30)] in
  let st := scenarioRun race (setPendingAction 20000 7%nat sessionStarted) in
  pendingNextBallAction st = None
  /\ actionsRun st = [7%nat]
  /\ timers st !! 1%positive = None
  /\ timers st !! 2%positive = None.
Proof. vm_compute. repeat split. Qed.

(** C2 on the two chunks of the scenario: they start at 10 and 11. *)
Lemma chunk_starts_at_cursor_witness :
  effects afterTwoChunks = effects sessionStarted ++
    [SourceStart 10 {| duration := 1 |}; SetCommentaryStatus "🎙️ Speaking...";
     SourceStart 11 {| duration := 0.8 |}; SetCommentaryStatus "🎙️ Speaking..."]
  /\ nextStartTime afterTwoChunks = 10 + 1 + 0.8
  /\ isAudioPlaying afterTwoChunks = true.
Proof.
  destruct (chunk_starts_at_cursor
              UseLiveCommentaryTs.initialSystemPrompt scenarioDecoder 20000)
    as (_ & Hpair).
  exact (Hpair EmptyString EmptyString (runningAt 10) (runningAt 10)
           {| state := running; currentTime := 10 |}
           {| state := running; currentTime := 10 |}
           (audioChunk "1s" false) (audioChunk "0.8s" false) "1s" "0.8s"
           {| duration := 1 |} {| duration := 0.8 |} sessionStarted
           eq_refl eq_refl eq_refl eq_refl eq_refl eq_refl eq_refl eq_refl).
Defined.

(** C3 on the scenario: the detector is armed at clock time 10.5; polls at
    11, 11.5 and 11.64 leave the flag set and the poll at 11.65 clears it. *)
Lemma completion_at_threshold_witness :
  let st := scheduleAudioCompletionCheck EmptyString (runningAt 10.5) afterTwoChunks in
  isAudioPlaying (fold_left pollAt [11; 11.5; 11.64] st) = true
  /\ isAudioPlaying (fold_left pollAt ([11; 11.5; 11.64] ++ [11.65]) st) = false.
Proof.
  destruct (completion_at_threshold
              UseLiveCommentaryTs.initialSystemPrompt scenarioDecoder 20000)
    as (_ & _ & _ & Hscenario).
  destruct (Hscenario EmptyString (audioChunk "1s" false) (audioChunk "0.8s" false)
              "1s" "0.8s" sessionStarted
              eq_refl eq_refl eq_refl eq_refl eq_refl eq_refl eq_refl eq_refl)
    as (_ & _ & _ & Hpolls).
  apply (Hpolls 10.5 [11; 11.5; 11.64] 11.65).
  - repeat constructor.
  - discriminate.
Defined.

(** C4 on the scenario: a check at clock time 10, with the cursor at 11.8,
    installs one poll, 1950 ms ahead. *)
Lemma recheck_is_scheduled_once_witness :
  let st' := performCheckAndAct EmptyString (runningAt 10) afterTwoChunks in
  effects st' = effects afterTwoChunks ++
    [SetTimeout 1 (PerformCheckAndAct EmptyString)
       (Qmax 50 ((nextStartTime afterTwoChunks - 10 + 0.15) * 1000))]
  /\ audioCompletionCheckTimeout st' = Some 1%positive
  /\ 300 < Qmax 50 ((nextStartTime afterTwoChunks - 10 + 0.15) * 1000).
Proof.
  destruct (recheck_is_scheduled_once EmptyString (runningAt 10)
              {| state := running; currentTime := 10 |} afterTwoChunks
              eq_refl eq_refl eq_refl)
    as (He & _ & Hr & Hms & _).
  exact (conj He (conj Hr Hms)).
Defined.

(** The delay of that poll is not the one the specification words: the
    code waits until the expected end plus the margin, 1950 ms, where the
    remaining time until the threshold plus the margin is 1800 ms. *)
Lemma recheck_delay_is_past_the_expected_end :
  isAudioPlaying afterTwoChunks = true
  /\ nextStartTime afterTwoChunks == 11.8
  /\ timers (performCheckAndAct EmptyString (runningAt 10) afterTwoChunks) !! 1%positive =
       Some {| callback := PerformCheckAndAct EmptyString;
               delay := timeToWait (nextStartTime afterTwoChunks) 10 |}
  /\ timeToWait (nextStartTime afterTwoChunks) 10 == 1950
  /\ timeToWaitAsSpecified (nextStartTime afterTwoChunks) 10 == 1800
  /\ ~ timeToWait (nextStartTime afterTwoChunks) 10
       == timeToWaitAsSpecified (nextStartTime afterTwoChunks) 10.
Proof.
  repeat split; try reflexivity; discriminate.
Qed.

(** C5 on the scenario: the detector is armed at 10 (poll 1) and armed
    again at 10.5, which cancels poll 1 and installs poll 2.  Poll 1 is
    spent: its firing, here after a third chunk has arrived, is a no-op. *)
Lemma arm_replaces_outstanding_poll_witness :
  let armedOnce := scenarioRun [OnMessage EmptyString (runningAt 10) turnCompleteAck]
                     afterTwoChunks in
  let later := scenarioRun [OnMessage EmptyString (runningAt 10.7) (audioChunk "0.5s" false)]
                 (scheduleAudioCompletionCheck EmptyString (runningAt 10.5) armedOnce) in
  audioCompletionCheckTimeout armedOnce = Some 1%positive
  /\ audioCompletionCheckTimeout later = Some 2%positive
  /\ timers later !! 1%positive = None
  /\ fire 1 (runningAt 12) later = later.
Proof.
  destruct (arm_replaces_outstanding_poll
              UseLiveCommentaryTs.initialSystemPrompt scenarioDecoder 20000)
    as (_ & _ & _ & Hstale).
  destruct (Hstale EmptyString (runningAt 10.5)
              (scenarioRun [OnMessage EmptyString (runningAt 10) turnCompleteAck]
                 afterTwoChunks)
              1%positive
              [OnMessage EmptyString (runningAt 10.7) (audioChunk "0.5s" false)]
              (runningAt 12)
              (run_wf _ _ _ _ _ afterTwoChunks_wf) eq_refl)
    as (Hnone & Hfire).
  split; [vm_compute; reflexivity | ].
  split; [vm_compute; reflexivity | ].
  split; [exact Hnone | exact Hfire].
Defined.

(** C6 on three chunks whose second does not decode: the third starts at
    11, where the first ends. *)
Lemma failed_chunk_is_dropped_witness :
  let st3 := scenarioRun
               [OnMessage EmptyString (runningAt 10) (audioChunk "1s" false);
                OnMessage EmptyString (runningAt 10.2) (audioChunk "garbled" false);
                OnMessage EmptyString (runningAt 10.4) (audioChunk "0.5s" false)]
               sessionStarted in
  effects st3 = effects sessionStarted ++
    [SourceStart 10 {| duration := 1 |}; SetCommentaryStatus "🎙️ Speaking...";
     SourceStart 11 {| duration := 0.5 |}; SetCommentaryStatus "🎙️ Speaking..."]
  /\ nextStartTime st3 = 10 + 1 + 0.5.
Proof.
  destruct (failed_chunk_is_dropped
              UseLiveCommentaryTs.initialSystemPrompt scenarioDecoder 20000)
    as (_ & Hthree).
  destruct (Hthree EmptyString EmptyString EmptyString
              (runningAt 10) (runningAt 10.2) (runningAt 10.4)
              {| state := running; currentTime := 10 |}
              {| state := running; currentTime := 10.2 |}
              {| state := running; currentTime := 10.4 |}
              (audioChunk "1s" false) (audioChunk "garbled" false)
              (audioChunk "0.5s" false) "1s" "garbled" "0.5s"
              {| duration := 1 |} {| duration := 0.5 |} sessionStarted
              eq_refl eq_refl eq_refl eq_refl eq_refl eq_refl eq_refl
              eq_refl eq_refl eq_refl eq_refl)
    as (_ & _ & He & Hc).
  exact (conj He Hc).
Defined.

(** The cursor is not always left unchanged by a chunk that fails to
    decode: when playback is idle and the clock (12) is past the cursor
    (10), the failed chunk has already moved the cursor to the clock. *)
Lemma failed_chunk_after_idle_moves_cursor :
  isAudioPlaying sessionStarted = false
  /\ nextStartTime sessionStarted = 10
  /\ scenarioDecoder "garbled" = None
  /\ snd (onmessage scenarioDecoder EmptyString (runningAt 12)
            (audioChunk "garbled" false) sessionStarted) = Threw
  /\ nextStartTime (fst (onmessage scenarioDecoder EmptyString (runningAt 12)
                           (audioChunk "garbled" false) sessionStarted)) = 12
  /\ nextStartTime (fst (onmessage scenarioDecoder EmptyString (runningAt 12)
                           (audioChunk "garbled" false) sessionStarted))
     <> nextStartTime sessionStarted.
Proof.
  repeat split; try reflexivity; discriminate.
Qed.

(** C7 on the scenario: a transport error arrives while the two chunks are
    playing and action 7 is pending; the action runs at once and no
    timeout is left. *)
Lemma transport_failure_runs_pending_action_witness :
  let st := setPendingAction 20000 7%nat afterTwoChunks in
  isAudioPlaying st = true
  /\ isAudioPlaying (onerror EmptyString (runningAt 10.5) st) = false
  /\ actionsRun (onerror EmptyString (runningAt 10.5) st) = [7%nat]
  /\ forall h, timers (onerror EmptyString (runningAt 10.5) st) !! h = None.
Proof.
  destruct (transport_failure_runs_pending_action EmptyString (runningAt 10.5)
              (setPendingAction 20000 7%nat afterTwoChunks))
    as ((Hplaying & _ & _ & _ & _ & Hran & Hnone) & _).
  split; [vm_compute; reflexivity | ].
  split; [exact Hplaying | ].
  split; [rewrite Hran; vm_compute; reflexivity | ].
  apply Hnone, setPendingAction_wf, afterTwoChunks_wf.
Defined.

(** C8 on the scenario: over the session's callbacks the cursor only
    grows. *)
Lemma cursor_never_rewinds_witness :
  (forall payload audioBuffer,
      scenarioDecoder payload = Some audioBuffer -> 0 <= duration audioBuffer)
  /\ nextStartTime sessionStarted
     <= nextStartTime
          (scenarioRun
             (twoChunks ++ [OnMessage EmptyString (runningAt 10.2) turnCompleteAck;
                            TimeoutFires 1 (runningAt 12);
                            OnMessage EmptyString (runningAt 14) (audioChunk "0.5s" true);
                            OnClose EmptyString (runningAt 14.1)])
             sessionStarted).
Proof.
  split; [exact scenarioDecoder_nonneg | ].
  destruct (cursor_never_rewinds UseLiveCommentaryTs.initialSystemPrompt
              scenarioDecoder 20000 scenarioDecoder_nonneg)
    as (_ & _ & Hmono).
  apply Hmono. reflexivity.
Defined.

(** C9 on the scenario: the same callbacks, once with closures that
    captured the speaking status and once with closures that captured the
    empty status, schedule alike. *)
Lemma status_never_steers_scheduling_witness :
  scheduling
    (scenarioRun [OnMessage "🎙️ Speaking..." (runningAt 10.2) turnCompleteAck;
                  OnClose "🎙️ Speaking..." (runningAt 10.5)] afterTwoChunks) =
  scheduling
    (scenarioRun [OnMessage EmptyString (runningAt 10.2) turnCompleteAck;
                  OnClose EmptyString (runningAt 10.5)] afterTwoChunks).
Proof.
  destruct (status_never_steers_scheduling
              UseLiveCommentaryTs.initialSystemPrompt scenarioDecoder 20000)
    as (Hsame & _).
  apply Hsame; reflexivity.
Defined.

(** The status is read as a decision input at one place: on the same
    state, the close handler whose closure captured the speaking status
    resets the status to the disconnected one, and the one whose closure
    captured the empty status leaves the closed status standing. *)
Lemma captured_status_decides_status_reset :
  commentaryStatus (onclose "🎙️ Speaking..." (runningAt 10.5) afterTwoChunks)
    = "⚠️ Live Disconnected"
  /\ commentaryStatus (onclose EmptyString (runningAt 10.5) afterTwoChunks)
    = "🔌 Live Closed"
  /\ omap (fun e => match e with SetCommentaryStatus s => Some s | _ => None end)
       (effects (onclose "🎙️ Speaking..." (runningAt 10.5) afterTwoChunks))
     <> omap (fun e => match e with SetCommentaryStatus s => Some s | _ => None end)
          (effects (onclose EmptyString (runningAt 10.5) afterTwoChunks)).
Proof.
  repeat split; try reflexivity. vm_compute. discriminate.
Qed.

(** * The paper-cut filter *)

Section PaperCutFilter.

Import PaperCut.

Lemma list_ind4 (P : list Z -> Prop) :
  P [] -> (forall a, P [a]) -> (forall a b, P [a; b]) -> (forall a b c, P [a; b; c]) ->
  (forall a b c d l, P l -> P (a :: b :: c :: d :: l)) ->
  forall l, P l.
Proof.
  intros H0 H1 H2 H3 H4 l.
  assert (H : forall n l, (length l <= n)%nat -> P l).
  { clear l. induction n as [ | n IH]; intros l Hl.
    - destruct l; [exact H0 | cbn in Hl; lia].
    - destruct l as [ | a [ | b [ | c [ | d l]]]]; auto.
      apply H4, IH. cbn in Hl. lia. }
  exact (H (length l) l (Nat.le_refl _)).
Qed.

Lemma mod4_skip (i : nat) : (S (S (S (S i))) mod 4 = i mod 4)%nat.
Proof.
  change (S (S (S (S i)))) with (4 + i)%nat.
  replace (4 + i)%nat with (i + 1 * 4)%nat by lia.
  apply Nat.Div0.mod_add.
Qed.

Lemma posterize_four (a b c d : Z) (l : list Z) (levels desaturate contrast : Q) :
  exists a' b' c',
    posterize (a :: b :: c :: d :: l) levels desaturate contrast
    = a' :: b' :: c' :: d :: posterize l levels desaturate contrast.
Proof.
  cbn [posterize].
  destruct (if negb (Qle_bool desaturate 0) then desaturatePixel desaturate a b c
            else (a, b, c)) as [[r g] b0].
  eauto.
Qed.

Lemma toUint8Clamp_isByte (x : Q) : isByte (toUint8Clamp x).
Proof.
  unfold toUint8Clamp, isByte.
  destruct (Qle_bool x 0) eqn:H0; [lia | ].
  destruct (Qle_bool 255 x) eqn:H255; [lia | ].
  assert (Hpos : 0 < x).
  { apply Qnot_le_lt. intros H. apply Qle_bool_iff in H. congruence. }
  assert (Hlt : x < 255).
  { apply Qnot_le_lt. intros H. apply Qle_bool_iff in H. congruence. }
  assert (Hf0 : (0 <= Qfloor x)%Z).
  { change 0%Z with (Qfloor 0). apply Qfloor_resp_le, Qlt_le_weak, Hpos. }
  assert (Hf1 : (Qfloor x < 255)%Z).
  { pose proof (Qfloor_le x) as Hle.
    assert (H : inject_Z (Qfloor x) < inject_Z 255) by (eapply Qle_lt_trans; eauto).
    now rewrite <- Zlt_Qlt in H. }
  cbv zeta. destruct (Qcompare _ _); [destruct (Z.even _) | | ]; lia.
Qed.

Lemma toUint8Clamp_nonpos (x : Q) : x <= 0 -> toUint8Clamp x = 0%Z.
Proof.
  intros H. unfold toUint8Clamp. apply Qle_bool_iff in H. now rewrite H.
Qed.

Lemma toUint8Clamp_top (x : Q) : 255 <= x -> toUint8Clamp x = 255%Z.
Proof.
  intros H. unfold toUint8Clamp.
  destruct (Qle_bool x 0) eqn:H0.
  - apply Qle_bool_iff in H0. exfalso.
    assert (H255 : (255:Q) <= 0) by (eapply Qle_trans; eauto).
    revert H255. apply Qlt_not_le. reflexivity.
  - apply Qle_bool_iff in H. now rewrite H.
Qed.

Lemma maxLevel_pos (levels : Q) : 1 <= Qmax (levels - 1) 1.
Proof. apply Q.le_max_r. Qed.

Lemma posterizeStep_pos (levels : Q) : 0 < posterizeStep levels.
Proof.
  unfold posterizeStep. pose proof (maxLevel_pos levels) as H.
  apply Qlt_shift_div_l; [ | rewrite Qmult_0_l; reflexivity].
  eapply Qlt_le_trans; [ | exact H]. reflexivity.
Qed.

Lemma posterizeStep_top (levels : Q) :
  Qmax (levels - 1) 1 * posterizeStep levels == 255.
Proof.
  unfold posterizeStep. pose proof (maxLevel_pos levels) as H.
  field. intros E. rewrite E in H. revert H. apply Qlt_not_le. reflexivity.
Qed.

(** The level a byte is sent to lies between 0 and the top level. *)
Lemma level_in_range (levels : Q) (d : Z) :
  isByte d ->
  (0 <= mathRound (inject_Z d / posterizeStep levels)
   <= mathRound (Qmax (levels - 1) 1))%Z.
Proof.
  intros [Hd0 Hd1]. pose proof (posterizeStep_pos levels) as Hs.
  unfold mathRound. split.
  - change 0%Z with (Qfloor 0). apply Qfloor_resp_le.
    assert (H : 0 <= inject_Z d / posterizeStep levels).
    { apply Qle_shift_div_l; [exact Hs | ]. rewrite Qmult_0_l.
      change 0 with (inject_Z 0). now rewrite <- Zle_Qle. }
    lra.
  - apply Qfloor_resp_le.
    assert (H : inject_Z d / posterizeStep levels <= Qmax (levels - 1) 1).
    { apply Qle_shift_div_r; [exact Hs | ]. rewrite posterizeStep_top.
      change 255 with (inject_Z 255). now rewrite <- Zle_Qle. }
    lra.
Qed.

Lemma posterizeChannel_palette (levels : Q) (d : Z) :
  isByte d -> In (posterizeChannel (posterizeStep levels) d) (palette levels).
Proof.
  intros Hd. destruct (level_in_range levels d Hd) as [Hk0 Hk1].
  unfold posterizeChannel, palette. cbv zeta.
  set (k := mathRound (inject_Z d / posterizeStep levels)) in *.
  apply in_map_iff. exists (Z.to_nat k). split.
  - now rewrite Z2Nat.id.
  - apply in_seq. lia.
Qed.

Lemma posterizeChannel_two_tone (levels : Q) (d : Z) :
  levels <= 2 -> isByte d ->
  posterizeChannel (posterizeStep levels) d = 0%Z
  \/ posterizeChannel (posterizeStep levels) d = 255%Z.
Proof.
  intros Hl Hd. destruct (level_in_range levels d Hd) as [Hk0 Hk1].
  assert (Hm : Qmax (levels - 1) 1 == 1) by (apply Q.max_r; lra).
  pose proof (posterizeStep_top levels) as Ht. rewrite Hm in Ht.
  assert (Hone : mathRound (Qmax (levels - 1) 1) = 1%Z).
  { unfold mathRound. rewrite Hm. reflexivity. }
  rewrite Hone in Hk1. unfold posterizeChannel. cbv zeta.
  set (k := mathRound (inject_Z d / posterizeStep levels)) in *.
  assert (Hk : k = 0%Z \/ k = 1%Z) by lia.
  destruct Hk as [-> | ->].
  - left. apply toUint8Clamp_nonpos. change (inject_Z 0) with 0.
    rewrite Qmult_0_l. apply Qle_refl.
  - right. apply toUint8Clamp_top. change (inject_Z 1) with 1.
    rewrite Qmult_1_l. rewrite <- Ht. rewrite Qmult_1_l. apply Qle_refl.
Qed.

(** What a colour channel holds when the posterize loop reaches it. *)
Lemma contrast_step_isByte (contrast : Q) (d : Z) :
  isByte d ->
  isByte (if negb (Qeq_bool contrast 1) then contrastChannel contrast d else d).
Proof.
  intros Hd. destruct (negb _); [apply toUint8Clamp_isByte | exact Hd].
Qed.

Lemma desaturate_step_isByte (desaturate : Q) (r g b : Z) :
  isByte r -> isByte g -> isByte b ->
  forall r' g' b',
    (if negb (Qle_bool desaturate 0) then desaturatePixel desaturate r g b
     else (r, g, b)) = (r', g', b') ->
    isByte r' /\ isByte g' /\ isByte b'.
Proof.
  intros Hr Hg Hb r' g' b'. destruct (negb _).
  - unfold desaturatePixel. cbv zeta. intros [= <- <- <-].
    repeat split; apply toUint8Clamp_isByte.
  - intros [= <- <- <-]. auto.
Qed.

Lemma short_step_isByte (desaturate : Q) (d : Z) :
  isByte d -> isByte (if negb (Qle_bool desaturate 0) then 0%Z else d).
Proof. intros Hd. destruct (negb _); [unfold isByte; lia | exact Hd]. Qed.

(** Every colour channel of the result is the posterize step applied to
    a byte. *)
Lemma posterize_channels (levels desaturate contrast : Q) (data : list Z) :
  Forall isByte data ->
  forall i v,
    (i mod 4 <> 3)%nat ->
    posterize data levels desaturate contrast !! i = Some v ->
    exists d, isByte d /\ v = posterizeChannel (posterizeStep levels) d.
Proof.
  induction data as [ | a | a b | a b c | a b c d l IH] using list_ind4; intros Hall i v Hi Hv.
  - discriminate Hv.
  - cbn [posterize map] in Hv. inversion Hall as [ | ? ? Ha _]; subst.
    destruct i as [ | i]; [ | discriminate Hv].
    injection Hv as <-. eexists. split; [ | reflexivity].
    apply contrast_step_isByte, short_step_isByte, Ha.
  - cbn [posterize map] in Hv.
    inversion Hall as [ | ? ? Ha Hall1]; subst.
    inversion Hall1 as [ | ? ? Hb _]; subst.
    destruct i as [ | [ | i]]; [ | | discriminate Hv];
      injection Hv as <-; (eexists; split; [ | reflexivity]);
      apply contrast_step_isByte, short_step_isByte; assumption.
  - cbn [posterize] in Hv.
    inversion Hall as [ | ? ? Ha Hall1]; subst.
    inversion Hall1 as [ | ? ? Hb Hall2]; subst.
    inversion Hall2 as [ | ? ? Hc _]; subst.
    destruct (if negb (Qle_bool desaturate 0) then desaturatePixel desaturate a b c
              else (a, b, c)) as [[r' g'] b'] eqn:E.
    destruct (desaturate_step_isByte desaturate a b c Ha Hb Hc _ _ _ E) as (Hr' & Hg' & Hb').
    destruct i as [ | [ | [ | i]]]; [ | | | discriminate Hv];
      injection Hv as <-; (eexists; split; [ | reflexivity]);
      apply contrast_step_isByte; assumption.
  - cbn [posterize] in Hv.
    inversion Hall as [ | ? ? Ha Hall1]; subst.
    inversion Hall1 as [ | ? ? Hb Hall2]; subst.
    inversion Hall2 as [ | ? ? Hc Hall3]; subst.
    inversion Hall3 as [ | ? ? Hd Hall4]; subst.
    destruct (if negb (Qle_bool desaturate 0) then desaturatePixel desaturate a b c
              else (a, b, c)) as [[r' g'] b'] eqn:E.
    destruct (desaturate_step_isByte desaturate a b c Ha Hb Hc _ _ _ E) as (Hr' & Hg' & Hb').
    destruct i as [ | [ | [ | [ | i]]]].
    1-3: injection Hv as <-; (eexists; split; [ | reflexivity]);
         apply contrast_step_isByte; assumption.
    + exfalso. apply Hi. reflexivity.
    + apply (IH Hall4 i v); [ | exact Hv].
      intros Hm. apply Hi. now rewrite mod4_skip.
Qed.

(** X11. [posterize] keeps the length of the data and never touches an
    alpha value: every fourth element, from the one at index 3 on, is
    what it was. *)
Theorem posterize_keeps_length_and_alpha :
  forall (data : list Z) (levels desaturate contrast : Q),
    length (posterize data levels desaturate contrast) = length data
    /\ forall i, (i mod 4 = 3)%nat ->
         posterize data levels desaturate contrast !! i = data !! i.
Proof.
  intros data levels desaturate contrast.
  induction data as [ | a | a b | a b c | a b c d l [IHlen IHalpha]] using list_ind4.
  - split; [reflexivity | intros i _; reflexivity].
  - split; [reflexivity | ].
    intros [ | i] Hi; [discriminate Hi | reflexivity].
  - split; [reflexivity | ].
    intros [ | [ | i]] Hi; try discriminate Hi; reflexivity.
  - cbn [posterize].
    destruct (if negb _ then _ else _) as [[r' g'] b'].
    split; [reflexivity | ].
    intros [ | [ | [ | i]]] Hi; try discriminate Hi; reflexivity.
  - destruct (posterize_four a b c d l levels desaturate contrast) as (a' & b' & c' & ->).
    split; [cbn [length]; now rewrite IHlen | ].
    intros [ | [ | [ | [ | i]]]] Hi; try discriminate Hi; [reflexivity | ].
    rewrite mod4_skip in Hi. exact (IHalpha i Hi).
Qed.

(** X12. On image data, every colour channel [posterize] leaves behind is
    one of the values of the palette of [levels], whatever [desaturate]
    and [contrast] are; with [levels] of 2 or less, 1 and 0 included, the
    palette has two tones and every colour channel is 0 or 255. *)
Theorem posterize_lands_on_the_palette :
  forall (data : list Z) (levels desaturate contrast : Q) (i : nat) (v : Z),
    Forall isByte data ->
    (i mod 4 <> 3)%nat ->
    posterize data levels desaturate contrast !! i = Some v ->
    In v (palette levels)
    /\ (levels <= 2 -> v = 0%Z \/ v = 255%Z).
Proof.
  intros data levels desaturate contrast i v Hall Hi Hv.
  destruct (posterize_channels levels desaturate contrast data Hall i v Hi Hv)
    as (d & Hd & ->).
  split.
  - apply posterizeChannel_palette, Hd.
  - intros Hl. apply posterizeChannel_two_tone; assumption.
Qed.

(** X13. [alphaAt] never reads outside the image data.  For an image of
    width [w] and height [h] whose data has four bytes per pixel, a
    position outside the image yields 0, and a position inside yields the
    fourth byte of the pixel at row [y] and column [x], which exists. *)
Theorem alphaAt_stays_in_bounds :
  forall (d : list Z) (w h x y : Z),
    (0 <= w)%Z -> (0 <= h)%Z ->
    Z.of_nat (length d) = (w * h * 4)%Z ->
    ((x < 0 \/ y < 0 \/ w <= x \/ h <= y)%Z -> alphaAt d w h x y = Some 0%Z)
    /\ ((0 <= x < w /\ 0 <= y < h)%Z ->
        exists a, alphaAt d w h x y = Some a
                  /\ d !! (4 * Z.to_nat (y * w + x) + 3)%nat = Some a).
Proof.
  intros d w h x y Hw Hh Hlen. unfold alphaAt. split.
  - intros Hout.
    destruct (Z.ltb_spec x 0), (Z.ltb_spec y 0), (Z.leb_spec w x), (Z.leb_spec h y);
      cbn [orb]; try reflexivity; lia.
  - intros [Hx Hy].
    destruct (Z.ltb_spec x 0), (Z.ltb_spec y 0), (Z.leb_spec w x), (Z.leb_spec h y);
      cbn [orb]; try lia.
    assert (Hidx : (0 <= (y * w + x) * 4 + 3 < w * h * 4)%Z) by nia.
    replace (Z.to_nat ((y * w + x) * 4 + 3)) with (4 * Z.to_nat (y * w + x) + 3)%nat
      by nia.
    destruct (d !! (4 * Z.to_nat (y * w + x) + 3)%nat) as [a | ] eqn:Ha; [eauto | ].
    apply lookup_ge_None in Ha. nia.
Qed.

End PaperCutFilter.

(** * The asset loader *)

Section AssetLoader.

Import GameAssets.

Lemma reports_count (ok : bool) (rs : list (AssetType * bool)) (st : Assets) :
  loadedCount (reports ok rs st) = (loadedCount st + length rs)%nat.
Proof.
  revert st. induction rs as [ | r rs IH]; intros st; cbn [reports fold_left length].
  - lia.
  - change (loadedCount (reports ok rs (markLoaded ok st r)) =
            (loadedCount st + S (length rs))%nat).
    rewrite IH. unfold markLoaded.
    destruct (Nat.eqb _ _); cbn [loadedCount]; lia.
Qed.

(** A report that is not the fifth leaves [all], [processed] and the
    number of [setProcessed] calls alone. *)
Lemma markLoaded_not_fifth (ok : bool) (st : Assets) (r : AssetType * bool) :
  S (loadedCount st) <> totalToLoad ->
  all (assetsLoaded (markLoaded ok st r)) = all (assetsLoaded st)
  /\ processed (markLoaded ok st r) = processed st
  /\ setProcessedCalls (markLoaded ok st r) = setProcessedCalls st.
Proof.
  intros Hne. unfold markLoaded.
  destruct (Nat.eqb_spec (S (loadedCount st)) totalToLoad) as [E | _]; [contradiction | ].
  cbn [assetsLoaded processed setProcessedCalls].
  now destruct r as [[] s].
Qed.

Lemma reports_without_fifth (ok : bool) (rs : list (AssetType * bool)) (st : Assets) :
  (loadedCount st + length rs < totalToLoad \/ totalToLoad <= loadedCount st)%nat ->
  all (assetsLoaded (reports ok rs st)) = all (assetsLoaded st)
  /\ processed (reports ok rs st) = processed st
  /\ setProcessedCalls (reports ok rs st) = setProcessedCalls st.
Proof.
  revert st. induction rs as [ | r rs IH]; intros st Hn; [easy | ].
  cbn [length] in Hn.
  change (reports ok (r :: rs) st) with (reports ok rs (markLoaded ok st r)).
  destruct (markLoaded_not_fifth ok st r) as (H1 & H2 & H3); [unfold totalToLoad in *; lia | ].
  destruct (IH (markLoaded ok st r)) as (G1 & G2 & G3).
  { pose proof (reports_count ok [r] st) as Hc. cbn [reports fold_left length] in Hc.
    unfold totalToLoad in *. lia. }
  repeat split; congruence.
Qed.

(** X14. [assetsLoaded.all] stays false until the fifth report.  When the
    five images have each reported once, in whatever order, it is the
    conjunction of the five outcomes: true exactly when every image
    loaded. *)
Theorem all_is_decided_by_five_reports :
  (forall ok rs,
      (length rs < 5)%nat ->
      all (assetsLoaded (reports ok rs initialAssets)) = false)
  /\ (forall ok rs,
      length rs = 5%nat -> everyKeyReports rs = true ->
      let loaded := assetsLoaded (reports ok rs initialAssets) in
      all loaded = forallb snd rs
      /\ all loaded = bat loaded && batsman loaded && dhBatsman loaded
                      && ball loaded && grass loaded).
Proof.
  split.
  - intros ok rs Hlen.
    destruct (reports_without_fifth ok rs initialAssets) as (H & _); [left; unfold totalToLoad; cbn; lia | ].
    exact H.
  - intros ok rs Hlen Hkeys.
    destruct rs as [ | [k1 s1] [ | [k2 s2] [ | [k3 s3] [ | [k4 s4] [ | [k5 s5] [ | ]]]]]];
      try discriminate Hlen.
    destruct k1, k2, k3, k4, k5; try discriminate Hkeys; clear;
      destruct s1, s2, s3, s4, s5; split; reflexivity.
Qed.

(** X15. The paper-cut canvases are built at most once, at the fifth
    report and at no other, whether or not every image loaded; reports
    after the fifth never revise [all] and never rebuild the canvases. *)
Theorem canvases_are_built_once_at_the_fifth_report :
  (forall ok rs,
      (setProcessedCalls (reports ok rs initialAssets) <= 1)%nat
      /\ (processed (reports ok rs initialAssets) = true ->
          ok = true /\ (5 <= length rs)%nat)
      /\ ((5 <= length rs)%nat ->
          processed (reports ok rs initialAssets) = ok))
  /\ (forall ok rs more,
      length rs = 5%nat ->
      all (assetsLoaded (reports ok (rs ++ more) initialAssets))
      = all (assetsLoaded (reports ok rs initialAssets))
      /\ setProcessedCalls (reports ok (rs ++ more) initialAssets)
         = setProcessedCalls (reports ok rs initialAssets)).
Proof.
  assert (Hfive : forall ok rs, length rs = 5%nat ->
            loadedCount (reports ok rs initialAssets) = 5%nat
            /\ processed (reports ok rs initialAssets) = ok
            /\ setProcessedCalls (reports ok rs initialAssets) = (if ok then 1 else 0)%nat).
  { intros ok rs Hlen.
    destruct rs as [ | r1 [ | r2 [ | r3 [ | r4 [ | r5 [ | ]]]]]]; try discriminate Hlen.
    now destruct ok. }
  assert (Hsplit : forall ok rs, (5 <= length rs)%nat ->
            processed (reports ok rs initialAssets) = ok
            /\ setProcessedCalls (reports ok rs initialAssets) = (if ok then 1 else 0)%nat).
  { intros ok rs Hlen.
    rewrite <- (firstn_skipn 5 rs). unfold reports. rewrite fold_left_app.
    fold (reports ok (firstn 5 rs) initialAssets).
    destruct (Hfive ok (firstn 5 rs)) as (Hc & Hp & Hs); [rewrite length_firstn; lia | ].
    destruct (reports_without_fifth ok (skipn 5 rs) (reports ok (firstn 5 rs) initialAssets))
      as (_ & G2 & G3); [right; rewrite Hc; unfold totalToLoad; lia | ].
    unfold reports in *. split; congruence. }
  split.
  - intros ok rs. destruct (Nat.le_gt_cases 5 (length rs)) as [Hge | Hlt].
    + destruct (Hsplit ok rs Hge) as (Hp & Hs). rewrite Hp, Hs.
      destruct ok; repeat split; try lia; try reflexivity; intros; try discriminate;
        auto.
    + destruct (reports_without_fifth ok rs initialAssets) as (_ & Hp & Hs);
        [left; unfold totalToLoad; cbn; lia | ].
      rewrite Hp, Hs. cbn. repeat split; try lia; intros; try discriminate; lia.
  - intros ok rs more Hlen. unfold reports. rewrite fold_left_app.
    fold (reports ok rs initialAssets).
    destruct (Hfive ok rs Hlen) as (Hc & _).
    destruct (reports_without_fifth ok more (reports ok rs initialAssets))
      as (G1 & _ & G3); [right; rewrite Hc; unfold totalToLoad; lia | ].
    unfold reports in *. split; assumption.
Qed.

End AssetLoader.

(** * The canvas component *)

Section Canvas.

Import GameCanvas.

Variables BALL_RADIUS BALL_SPRITE_DISPLAY_WIDTH TRAIL_LENGTH : Q.
Variables CANVAS_WIDTH CANVAS_HEIGHT : Q.

Lemma Qhalf (x : Q) : x / 2 == x * (1#2).
Proof. reflexivity. Qed.

Lemma not_Qle_bool (a b : Q) : negb (Qle_bool a b) = true <-> b < a.
Proof.
  destruct (Qle_bool a b) eqn:H; cbn; split; intros G; try discriminate; try reflexivity.
  - apply Qle_bool_iff in H. lra.
  - apply Qnot_le_lt. intros Hle. apply Qle_bool_iff in Hle. congruence.
Qed.

Lemma not_Qle_bool_false (a b : Q) : negb (Qle_bool a b) = false <-> a <= b.
Proof.
  rewrite <- Qle_bool_iff. destruct (Qle_bool a b); cbn; intuition congruence.
Qed.

Lemma drawTrail_dots (gameState : string) (cBall : Ball.t) (d : Draw) :
  In d (drawTrail TRAIL_LENGTH gameState cBall) ->
  gameState = "BALL_IN_PLAY"
  /\ exists trail index p,
      Ball.trail cBall = Some trail /\ trail !! index = Some p
      /\ In d (drawTrailPoint TRAIL_LENGTH index p).
Proof.
  unfold drawTrail. destruct (Ball.trail cBall) as [trail | ]; [ | intros []].
  destruct (String.eqb_spec gameState "BALL_IN_PLAY") as [-> | _]; [ | intros []].
  intros Hd. split; [reflexivity | ].
  apply in_concat in Hd. destruct Hd as (ds & Hds & Hd).
  apply list_elem_of_In, elem_of_lookup_imap in Hds.
  destruct Hds as (index & p & -> & Hp). eauto 6.
Qed.

Lemma drawTrailPoint_dot (index : nat) (p : TrailPoint.t) (d : Draw) :
  In d (drawTrailPoint TRAIL_LENGTH index p) ->
  let trailProgress := inject_Z (Z.of_nat index) / TRAIL_LENGTH in
  d = Arc (TrailPoint.x p) (TrailPoint.y p - TrailPoint.z p)
        (TrailPoint.radius p * trailProgress) (White (trailProgress * 0.5))
  /\ 0.5 < TrailPoint.radius p * trailProgress.
Proof.
  unfold drawTrailPoint. cbv zeta.
  destruct (negb _) eqn:Hr; [ | intros []].
  intros [<- | []]. split; [reflexivity | ]. now apply not_Qle_bool in Hr.
Qed.

Lemma drawTrail_no_shadow_no_ball (gameState : string) (cBall : Ball.t) :
  List.filter isShadow (drawTrail TRAIL_LENGTH gameState cBall) = []
  /\ List.filter isBall (drawTrail TRAIL_LENGTH gameState cBall) = [].
Proof.
  assert (H : forall d, In d (drawTrail TRAIL_LENGTH gameState cBall) ->
              isShadow d = false /\ isBall d = false).
  { intros d Hd. apply drawTrail_dots in Hd.
    destruct Hd as (_ & trail & index & p & _ & _ & Hd).
    apply drawTrailPoint_dot in Hd. destruct Hd as [-> _]. split; reflexivity. }
  induction (drawTrail TRAIL_LENGTH gameState cBall) as [ | d ds IH]; [split; reflexivity | ].
  destruct (H d (or_introl eq_refl)) as [Hs Hb].
  destruct IH as [IHs IHb]; [intros d' Hd'; apply H; now right | ].
  cbn [List.filter]. rewrite Hs, Hb. split; assumption.
Qed.

Lemma coverScaling_fits (width height : Q) :
  0 < CANVAS_WIDTH -> 0 < CANVAS_HEIGHT ->
  let scale := Qmax (width / CANVAS_WIDTH) (height / CANVAS_HEIGHT) in
  width <= CANVAS_WIDTH * scale
  /\ height <= CANVAS_HEIGHT * scale
  /\ (CANVAS_WIDTH * scale == width \/ CANVAS_HEIGHT * scale == height).
Proof.
  intros HW HH. cbv zeta.
  set (a := width / CANVAS_WIDTH). set (b := height / CANVAS_HEIGHT).
  assert (Ha : CANVAS_WIDTH * a == width) by (unfold a; field; lra).
  assert (Hb : CANVAS_HEIGHT * b == height) by (unfold b; field; lra).
  rewrite <- Ha at 1 2. rewrite <- Hb at 1 2. clearbody a b.
  destruct (Q.max_spec_le a b) as [[Hab ->] | [Hba ->]].
  - repeat split; [ | apply Qle_refl | right; reflexivity].
    apply Qmult_le_l; assumption.
  - repeat split; [apply Qle_refl | | left; reflexivity].
    apply Qmult_le_l; assumption.
Qed.

(** X16. "Cover" scaling.  On a canvas of any size the transform of the
    render effect maps the virtual pitch, CANVAS_WIDTH by CANVAS_HEIGHT,
    onto a rectangle that contains the whole canvas, keeps the aspect
    ratio of the pitch, is centred on the canvas and fits it exactly
    along one axis, so that only the other axis is cropped; this is the
    transform the effect sets before anything of the game is drawn. *)
Theorem game_area_covers_the_canvas :
  forall (width height : Q),
    0 < CANVAS_WIDTH -> 0 < CANVAS_HEIGHT -> 0 <= width -> 0 <= height ->
    let transform := coverScaling CANVAS_WIDTH CANVAS_HEIGHT width height in
    let left := fst (onCanvas transform (0, 0)) in
    let top := snd (onCanvas transform (0, 0)) in
    let right := fst (onCanvas transform (CANVAS_WIDTH, CANVAS_HEIGHT)) in
    let bottom := snd (onCanvas transform (CANVAS_WIDTH, CANVAS_HEIGHT)) in
    (left <= 0 /\ top <= 0 /\ width <= right /\ height <= bottom)
    /\ (left == 0 \/ top == 0)
    /\ (right - width == 0 - left /\ bottom - height == 0 - top)
    /\ (right - left) * CANVAS_HEIGHT == (bottom - top) * CANVAS_WIDTH
    /\ forall ballImage batsmanImage batImage grassImage gameState ball,
         spriteReady ballImage && spriteReady batsmanImage
         && spriteReady batImage && spriteReady grassImage = true ->
         exists game,
           render BALL_RADIUS BALL_SPRITE_DISPLAY_WIDTH TRAIL_LENGTH
             CANVAS_WIDTH CANVAS_HEIGHT true (Some (width, height))
             ballImage batsmanImage batImage grassImage gameState ball
           = ClearRect 0 0 width height :: DrawField :: Save
             :: Translate (snd (fst transform)) (snd transform)
             :: Scale (fst (fst transform)) (fst (fst transform))
             :: game ++ [Restore].
Proof.
  intros width height HW HH Hw Hh. cbv zeta.
  destruct (coverScaling_fits width height HW HH) as (Hsw & Hsh & Hone).
  unfold coverScaling, onCanvas. cbv zeta. cbn [fst snd].
  set (s := Qmax (width / CANVAS_WIDTH) (height / CANVAS_HEIGHT)) in *.
  assert (Hgw : s * CANVAS_WIDTH == CANVAS_WIDTH * s) by ring.
  assert (Hgh : s * CANVAS_HEIGHT == CANVAS_HEIGHT * s) by ring.
  assert (Hratio : CANVAS_WIDTH * s * CANVAS_HEIGHT == CANVAS_HEIGHT * s * CANVAS_WIDTH)
    by ring.
  split; [ | split; [ | split; [ | split]]].
  - rewrite Hgw, Hgh, !Qhalf.
    set (gw := CANVAS_WIDTH * s) in *. set (gh := CANVAS_HEIGHT * s) in *.
    clearbody gw gh. repeat split; lra.
  - rewrite !Qhalf.
    set (gw := CANVAS_WIDTH * s) in *. set (gh := CANVAS_HEIGHT * s) in *.
    clearbody gw gh. destruct Hone; [left | right]; lra.
  - rewrite Hgw, Hgh, !Qhalf.
    set (gw := CANVAS_WIDTH * s) in *. set (gh := CANVAS_HEIGHT * s) in *.
    clearbody gw gh. split; lra.
  - rewrite Hgw, Hgh.
    transitivity (CANVAS_WIDTH * s * CANVAS_HEIGHT); [ring | ].
    rewrite Hratio. ring.
  - intros ballImage batsmanImage batImage grassImage gameState ball Hready.
    unfold render. rewrite Hready. cbn [negb].
    exists (DrawPitch :: DrawStumps :: DrawBatsman ::
            match ball with
            | Some _ =>
                if ballIsShown gameState
                then drawBall BALL_RADIUS BALL_SPRITE_DISPLAY_WIDTH TRAIL_LENGTH
                       ballImage gameState ball
                else []
            | None => []
            end).
    reflexivity.
Qed.

(** X17. A ball on the ground has no shadow.  A ball in the air has
    exactly one, on the ground line below it: an ellipse of at least 1.5
    by 0.7, so the test on the shadow radius never hides it, whose
    opacity stays below 0.4 and is 0 from a height of 60 on. *)
Theorem shadow_is_drawn_only_in_the_air :
  forall (ballImage : option Q) (gameState : string) (cBall : Ball.t),
    let drawn :=
      drawBall BALL_RADIUS BALL_SPRITE_DISPLAY_WIDTH TRAIL_LENGTH
        ballImage gameState (Some cBall) in
    (Ball.z cBall <= 0 -> List.filter isShadow drawn = [])
    /\ (0 < Ball.z cBall ->
        exists radiusX radiusY opacity,
          List.filter isShadow drawn
          = [Ellipse (Ball.x cBall) (Ball.y cBall + Ball.radius cBall)
               radiusX radiusY (Black opacity)]
          /\ 1.5 <= radiusX /\ 0.7 <= radiusY
          /\ 0 <= opacity /\ opacity < 0.4
          /\ (60 <= Ball.z cBall -> opacity == 0)).
Proof.
  intros ballImage gameState cBall. cbv zeta. unfold drawBall.
  rewrite !List.filter_app.
  destruct (drawTrail_no_shadow_no_ball gameState cBall) as [-> _].
  assert (Hball : forall d : Draw,
            List.filter isShadow
              [if spriteReady ballImage then
                 DrawImage (Ball.x cBall - Qmax BALL_SPRITE_DISPLAY_WIDTH
                              ((BALL_RADIUS + Ball.z cBall * 0.5) * 2) / 2)
                   (Ball.y cBall - Ball.z cBall - Qmax BALL_SPRITE_DISPLAY_WIDTH
                              ((BALL_RADIUS + Ball.z cBall * 0.5) * 2) / 2)
                   (Qmax BALL_SPRITE_DISPLAY_WIDTH ((BALL_RADIUS + Ball.z cBall * 0.5) * 2))
                   (Qmax BALL_SPRITE_DISPLAY_WIDTH ((BALL_RADIUS + Ball.z cBall * 0.5) * 2))
               else Arc (Ball.x cBall) (Ball.y cBall - Ball.z cBall)
                      (BALL_RADIUS + Ball.z cBall * 0.5) BALL_FALLBACK_COLOR] = [])
    by (intros _; destruct (spriteReady ballImage); reflexivity).
  rewrite (Hball DrawField). clear Hball. rewrite !app_nil_r.
  unfold drawShadow. cbv zeta. split.
  - intros Hz. apply not_Qle_bool_false in Hz. rewrite Hz. reflexivity.
  - intros Hz. pose proof Hz as Hz'. apply not_Qle_bool in Hz'. rewrite Hz'.
    set (shadowRadius := Qmax 1 (Ball.radius cBall - Ball.z cBall / 15)).
    set (shadowOpacity := Qmax 0 (0.4 - Ball.z cBall / 150)).
    assert (Hr : 1 <= shadowRadius) by apply Q.le_max_l.
    assert (Hpos : negb (Qle_bool shadowRadius 0) = true) by (apply not_Qle_bool; lra).
    rewrite Hpos. cbn [List.filter isShadow].
    exists (shadowRadius * 1.5), (shadowRadius * 0.7), shadowOpacity.
    split; [reflexivity | ].
    assert (Ho : (0 <= 0.4 - Ball.z cBall / 150 /\ shadowOpacity == 0.4 - Ball.z cBall / 150)
                 \/ (0.4 - Ball.z cBall / 150 <= 0 /\ shadowOpacity == 0))
      by apply Q.max_spec_le.
    clearbody shadowRadius shadowOpacity.
    set (q := Ball.z cBall / 150) in *.
    assert (Hq : q * 150 == Ball.z cBall) by (unfold q; field).
    clearbody q.
    repeat split; lra.
Qed.

(** X18. [drawBall] draws the ball exactly once and last, over its shadow
    and trail.  With the sprite ready it is a square image centred on the
    point (x, y - z), at least BALL_SPRITE_DISPLAY_WIDTH wide and never
    narrower than the circle drawn without the sprite, which has the same
    centre. *)
Theorem ball_is_drawn_once_and_on_top :
  forall (ballImage : option Q) (gameState : string) (cBall : Ball.t),
    exists before last,
      drawBall BALL_RADIUS BALL_SPRITE_DISPLAY_WIDTH TRAIL_LENGTH
        ballImage gameState (Some cBall) = before ++ [last]
      /\ List.filter isBall before = []
      /\ match last with
         | DrawImage dx dy dWidth dHeight =>
             spriteReady ballImage = true
             /\ dWidth = dHeight
             /\ dx + dWidth / 2 == Ball.x cBall
             /\ dy + dHeight / 2 == Ball.y cBall - Ball.z cBall
             /\ BALL_SPRITE_DISPLAY_WIDTH <= dWidth
             /\ 2 * (BALL_RADIUS + Ball.z cBall * 0.5) <= dWidth
         | Arc x y radius BALL_FALLBACK_COLOR =>
             spriteReady ballImage = false
             /\ x = Ball.x cBall
             /\ y = Ball.y cBall - Ball.z cBall
             /\ radius = BALL_RADIUS + Ball.z cBall * 0.5
         | _ => False
         end.
Proof.
  intros ballImage gameState cBall. unfold drawBall. cbv zeta.
  rewrite app_assoc. eexists _, _. split; [reflexivity | ]. split.
  - rewrite List.filter_app.
    destruct (drawTrail_no_shadow_no_ball gameState cBall) as [_ ->].
    rewrite app_nil_r. unfold drawShadow. cbv zeta.
    destruct (negb _); [ | reflexivity]. destruct (negb _); reflexivity.
  - destruct (spriteReady ballImage); [ | repeat split].
    set (visualRadius := BALL_RADIUS + Ball.z cBall * 0.5).
    set (displaySize := Qmax BALL_SPRITE_DISPLAY_WIDTH (visualRadius * 2)).
    assert (H1 : BALL_SPRITE_DISPLAY_WIDTH <= displaySize) by apply Q.le_max_l.
    assert (H2 : visualRadius * 2 <= displaySize) by apply Q.le_max_r.
    clearbody displaySize visualRadius.
    repeat split; try lra; field.
Qed.

(** X19. Trail dots are drawn only while the ball is in play.  Each one is
    a point of the trail other than its first, at that point's place
    above the ground and wider than 0.5; where the trail is no longer
    than TRAIL_LENGTH the dot is narrower than the point it stands for and
    its opacity stays below 0.5. *)
Theorem trail_dots_fade_towards_the_oldest_point :
  forall (ballImage : option Q) (gameState : string) (cBall : Ball.t) (d : Draw),
    0 < TRAIL_LENGTH ->
    In d (drawBall BALL_RADIUS BALL_SPRITE_DISPLAY_WIDTH TRAIL_LENGTH
            ballImage gameState (Some cBall)) ->
    isTrailDot d = true ->
    gameState = "BALL_IN_PLAY"
    /\ exists trail index p radius opacity,
        Ball.trail cBall = Some trail
        /\ trail !! index = Some p
        /\ (0 < index)%nat
        /\ d = Arc (TrailPoint.x p) (TrailPoint.y p - TrailPoint.z p) radius (White opacity)
        /\ 0.5 < radius
        /\ 0 < opacity
        /\ (inject_Z (Z.of_nat (length trail)) <= TRAIL_LENGTH ->
            radius < TrailPoint.radius p /\ opacity < 0.5).
Proof.
  intros ballImage gameState cBall d HT Hd Hdot. unfold drawBall in Hd. cbv zeta in Hd.
  apply in_app_or in Hd. destruct Hd as [Hd | Hd].
  { exfalso. unfold drawShadow in Hd. cbv zeta in Hd.
    destruct (negb _); [ | destruct Hd]. destruct (negb _); [ | destruct Hd].
    destruct Hd as [<- | []]. discriminate Hdot. }
  apply in_app_or in Hd. destruct Hd as [Hd | Hd].
  2:{ exfalso. destruct (spriteReady ballImage); destruct Hd as [<- | []];
        discriminate Hdot. }
  apply drawTrail_dots in Hd.
  destruct Hd as (Hgs & trail & index & p & Htrail & Hp & Hd).
  apply drawTrailPoint_dot in Hd. cbv zeta in Hd. destruct Hd as [-> Hr].
  split; [exact Hgs | ].
  set (trailProgress := inject_Z (Z.of_nat index) / TRAIL_LENGTH) in *.
  assert (Hidx : inject_Z (Z.of_nat index) == trailProgress * TRAIL_LENGTH).
  { unfold trailProgress. field. lra. }
  assert (Hi0 : 0 <= inject_Z (Z.of_nat index)).
  { change 0 with (inject_Z 0). rewrite <- Zle_Qle. lia. }
  assert (Hprog0 : 0 <= trailProgress).
  { unfold trailProgress. apply Qle_shift_div_l; [exact HT | ]. lra. }
  assert (Hprog : 0 < trailProgress).
  { destruct (Qlt_le_dec 0 trailProgress) as [H | H]; [exact H | ].
    assert (E : trailProgress == 0) by lra.
    rewrite E in Hr. exfalso. lra. }
  assert (Hindex : (0 < index)%nat).
  { destruct index as [ | index]; [ | lia]. exfalso.
    unfold trailProgress in Hprog. cbn in Hprog. unfold Qdiv in Hprog.
    rewrite Qmult_0_l in Hprog. lra. }
  assert (Hlen : (index < length trail)%nat) by (eapply lookup_lt_Some; eauto).
  exists trail, index, p, (TrailPoint.radius p * trailProgress), (trailProgress * 0.5).
  split; [exact Htrail | ]. split; [exact Hp | ]. split; [exact Hindex | ].
  split; [reflexivity | ]. split; [exact Hr | ]. split; [lra | ].
  intros Hfit.
  assert (Hlt : inject_Z (Z.of_nat index) < TRAIL_LENGTH).
  { eapply Qlt_le_trans; [ | exact Hfit]. rewrite <- Zlt_Qlt. lia. }
  assert (Hp1 : trailProgress < 1).
  { unfold trailProgress. apply Qlt_shift_div_r; [exact HT | ]. lra. }
  assert (Hrad : 0 < TrailPoint.radius p).
  { destruct (Qlt_le_dec 0 (TrailPoint.radius p)) as [H | H]; [exact H | ].
    exfalso. clearbody trailProgress. nra. }
  clearbody trailProgress. split; [nra | lra].
Qed.

End Canvas.

(** * The composition root *)

Section Root.

Import CricketGame.

(** X20. A rejected connection whose message names an unavailable
    service or a missing entity closes the key gate: whatever the gate
    held, [CricketGame] then shows the key overlay with its error
    paragraph instead of the game.  Any other rejection leaves the gate
    as it was. *)
Theorem key_error_closes_the_gate :
  forall (errorMessage : string) (st : Hook) (g : KeyGate) (currentGameState : string),
    let st' := fst (connectRejected errorMessage st) in
    let reported := drop (length (effects st)) (effects st') in
    let g' := foldl (fun g e => deliver e g) g reported in
    if includes errorMessage "service is currently unavailable"
       || includes errorMessage "entity was not found"
    then screen g' currentGameState = ApiKeyOverlay true
    else g' = g.
Proof.
  intros errorMessage st g currentGameState. cbv zeta. unfold connectRejected.
  destruct (includes errorMessage "service is currently unavailable"
            || includes errorMessage "entity was not found");
    cbn [fst effects set_isAudioPlaying emit setCommentaryStatus].
  - rewrite <- app_assoc, drop_app_length. reflexivity.
  - rewrite drop_app_length. reflexivity.
Qed.

(** X21. Behind an open gate at most one of the player selection, the
    start overlay and the controls is shown, the swing instruction only
    together with the controls, and in every state in which the canvas
    draws the ball neither the player selection nor the start overlay is
    in front of it. *)
Theorem at_most_one_overlay_is_shown :
  forall (g : KeyGate) (currentGameState : string)
         (showPlayerSelect showStartButton showControls showSwingInstruction : bool),
    screen g currentGameState
    = Game showPlayerSelect showStartButton showControls showSwingInstruction ->
    showPlayerSelect && showStartButton = false
    /\ showPlayerSelect && showControls = false
    /\ showStartButton && showControls = false
    /\ (showSwingInstruction = true -> showControls = true)
    /\ (GameCanvas.ballIsShown currentGameState = true ->
        showPlayerSelect = false /\ showStartButton = false).
Proof.
  intros g gs ps sb c sw. unfold screen, GameCanvas.ballIsShown.
  destruct (negb (apiKeyReady g)); [discriminate | ]. cbv zeta.
  intros [= <- <- <- <-].
  destruct (String.eqb_spec gs "PLAYER_SELECT") as [-> | _];
    [repeat split; try reflexivity; intros; discriminate | ].
  destruct (String.eqb_spec gs "IDLE") as [-> | _];
    [repeat split; try reflexivity; intros; discriminate | ].
  destruct (String.eqb_spec gs "GAME_OVER") as [-> | _];
    [repeat split; try reflexivity; intros; discriminate | ].
  destruct (String.eqb_spec gs "LOADING") as [-> | _];
    [repeat split; try reflexivity; intros; discriminate | ].
  cbn [negb andb orb]. repeat split; try reflexivity.
  intros H. rewrite H. reflexivity.
Qed.

End Root.

(** * The rest of the hook on the scenarios *)

(** X1 on a first call: no context yet, the browser creates it suspended
    and [resume] brings it to running. *)
Lemma initAudioContext_leaves_running_context_witness :
  isRunning (Some {| state := running; currentTime := 0 |}) = true
  /\ (In NewAudioContext [NewAudioContext; Resume] <-> @None AudioContext = None).
Proof.
  destruct (initAudioContext_leaves_running_context
              {| state := suspended; currentTime := 0 |}
              (Some {| state := running; currentTime := 0 |}) None
              (Some {| state := running; currentTime := 0 |})
              [NewAudioContext; Resume] Returned eq_refl)
    as (Hrun & _ & Hnew & _).
  exact (conj (Hrun eq_refl) Hnew).
Defined.

(** X2 on the scenario: a restart at clock time 13 while the two chunks
    are playing closes the session, resets the cursor and asks for a
    connection. *)
Lemma initLiveSession_connects_only_with_running_audio_witness :
  snd (initLiveSession UseLiveCommentaryTs.initialSystemPrompt true (runningAt 13)
         afterTwoChunks) = Returned
  /\ nextStartTime (fst (initLiveSession UseLiveCommentaryTs.initialSystemPrompt true
                           (runningAt 13) afterTwoChunks)) = 13
  /\ isAudioPlaying (fst (initLiveSession UseLiveCommentaryTs.initialSystemPrompt true
                            (runningAt 13) afterTwoChunks)) = false.
Proof.
  destruct (initLiveSession_connects_only_with_running_audio
              UseLiveCommentaryTs.initialSystemPrompt true (runningAt 13) afterTwoChunks)
    as (Hiff & Hret & _).
  assert (Hr : snd (initLiveSession UseLiveCommentaryTs.initialSystemPrompt true
                      (runningAt 13) afterTwoChunks) = Returned).
  { apply Hiff. split; reflexivity. }
  destruct (Hret Hr) as (_ & Hidle & ctx & Hctx & Hcursor).
  split; [exact Hr | ]. split; [ | exact Hidle].
  injection Hctx as <-. exact Hcursor.
Defined.

(** X3 on the scenario: the detector is armed at 10.2 (poll 1) with action
    7 pending, the session restarts at 10.5, and poll 1 fires at 10.6,
    long before the audio ends: the action runs. *)
Lemma restart_keeps_poll_that_completes_at_once_witness :
  let st := scenarioRun [SetPendingAction 7%nat;
                         OnMessage EmptyString (runningAt 10.2) turnCompleteAck]
              afterTwoChunks in
  let st' := fst (initLiveSession UseLiveCommentaryTs.initialSystemPrompt true
                    (runningAt 10.5) st) in
  isAudioPlaying st = true
  /\ isAudioPlaying (fire 2 (runningAt 10.6) st') = false
  /\ actionsRun (fire 2 (runningAt 10.6) st') = [7%nat].
Proof.
  split; [vm_compute; reflexivity | ].
  destruct (restart_keeps_poll_that_completes_at_once
              UseLiveCommentaryTs.initialSystemPrompt true (runningAt 10.5)
              (scenarioRun [SetPendingAction 7%nat;
                            OnMessage EmptyString (runningAt 10.2) turnCompleteAck]
                 afterTwoChunks)
              (fst (initLiveSession UseLiveCommentaryTs.initialSystemPrompt true
                      (runningAt 10.5)
                      (scenarioRun [SetPendingAction 7%nat;
                                    OnMessage EmptyString (runningAt 10.2) turnCompleteAck]
                         afterTwoChunks)))
              2%positive
              {| callback := PerformCheckAndAct EmptyString;
                 delay := timeToWait (nextStartTime afterTwoChunks) 10.2 |}
              (runningAt 10.6))
    as (_ & Hidle & _ & _ & Hran).
  - vm_compute. reflexivity.
  - vm_compute. reflexivity.
  - reflexivity.
  - split; [exact Hidle | ]. rewrite Hran. vm_compute. reflexivity.
Defined.

(** X4 on the scenario: with key, session and readiness a prompt is sent
    and accepted. *)
Lemma triggerDynamicCommentary_accepts_only_sent_prompts_witness :
  snd (triggerDynamicCommentary EmptyString (runningAt 10) true (Some "SIX runs") true
         sessionStarted) = true
  /\ snd (triggerDynamicCommentary EmptyString (runningAt 10) true (Some "SIX runs") true
            initialHook) = false.
Proof.
  destruct (triggerDynamicCommentary_accepts_only_sent_prompts
              EmptyString (runningAt 10) true (Some "SIX runs") true sessionStarted)
    as (Hiff & _).
  split.
  - apply Hiff. repeat split. exists "SIX runs". split; [reflexivity | discriminate].
  - reflexivity.
Defined.

(** X5 on the scenario: the send fails while the two chunks are playing
    and action 7 is pending; the action runs at once. *)
Lemma triggerDynamicCommentary_failure_runs_pending_action_witness :
  let st := setPendingAction 20000 7%nat afterTwoChunks in
  isAudioPlaying st = true
  /\ isAudioPlaying (fst (triggerDynamicCommentary EmptyString (runningAt 10.5) true
                            (Some "SIX runs") false st)) = false
  /\ actionsRun (fst (triggerDynamicCommentary EmptyString (runningAt 10.5) true
                        (Some "SIX runs") false st)) = [7%nat].
Proof.
  split; [vm_compute; reflexivity | ].
  destruct (triggerDynamicCommentary_failure_runs_pending_action
              EmptyString (runningAt 10.5) (Some "SIX runs") false
              (setPendingAction 20000 7%nat afterTwoChunks))
    as (_ & Hidle & _ & _ & _ & Hran).
  - reflexivity.
  - reflexivity.
  - right. split; [reflexivity | discriminate].
  - split; [exact Hidle | ]. rewrite Hran. vm_compute. reflexivity.
Defined.

(** X6 on the scenario: after a close, more messages and a connection
    that resolves do not make the session ready again. *)
Lemma no_prompt_is_sent_after_disconnect_witness :
  let st := scenarioRun [OnMessage EmptyString (runningAt 11) (audioChunk "0.5s" true);
                         ConnectResolved]
              (onclose EmptyString (runningAt 10.5) afterTwoChunks) in
  triggerDynamicCommentary EmptyString (runningAt 12) true (Some "SIX runs") true st
  = (st, false).
Proof.
  destruct (no_prompt_is_sent_after_disconnect
              UseLiveCommentaryTs.initialSystemPrompt scenarioDecoder 20000)
    as (Hclosed & Hstays).
  destruct (Hstays [OnMessage EmptyString (runningAt 11) (audioChunk "0.5s" true);
                    ConnectResolved]
              (onclose EmptyString (runningAt 10.5) afterTwoChunks)
              (proj2 (Hclosed EmptyString (runningAt 10.5) afterTwoChunks)) eq_refl)
    as (_ & Hfalse).
  apply Hfalse.
Defined.


(** X8 on the scenario: the second chunk arrives while the detector is
    armed and action 7 is pending. *)
Lemma chunk_message_never_runs_pending_action_witness :
  let st := scenarioRun [SetPendingAction 7%nat;
                         OnMessage EmptyString (runningAt 10) (audioChunk "1s" true)]
              sessionStarted in
  pendingNextBallAction
    (fst (onmessage scenarioDecoder EmptyString (runningAt 10.3)
            (audioChunk "0.8s" false) st))
  = pendingNextBallAction st
  /\ timers (fst (onmessage scenarioDecoder EmptyString (runningAt 10.3)
                    (audioChunk "0.8s" false) st))
     = timers st.
Proof.
  destruct (chunk_message_never_runs_pending_action scenarioDecoder
              EmptyString (runningAt 10.3) (audioChunk "0.8s" false)
              (scenarioRun [SetPendingAction 7%nat;
                            OnMessage EmptyString (runningAt 10)
                              (audioChunk "1s" true)]
                 sessionStarted)
              eq_refl)
    as (_ & Hp & _ & _ & Ht & _).
  exact (conj Hp Ht).
Defined.

(** X9 on the scenario: the check at clock time 10 asks for 1950 ms; the
    poll that fires at 11.95 declares completion. *)
Lemma one_recheck_completes_witness :
  isAudioPlaying
    (pollAt (performCheckAndAct EmptyString (runningAt 10) afterTwoChunks) 11.95) = false.
Proof.
  destruct (one_recheck_completes EmptyString (runningAt 10)
              {| state := running; currentTime := 10 |} afterTwoChunks 11.95)
    as (_ & Hidle & _).
  - reflexivity.
  - reflexivity.
  - reflexivity.
  - discriminate.
  - exact Hidle.
Defined.

(** X10 on the scenario: the context is suspended while the two chunks are
    playing and action 7 is pending; a chunk is dropped and the
    acknowledged end of the turn runs the action with the flag still set. *)
Lemma sink_not_running_drops_chunks_and_completes_witness :
  let suspendedAt := Some {| state := suspended; currentTime := 10.5 |} in
  let st := setPendingAction 20000 7%nat afterTwoChunks in
  fst (onmessage scenarioDecoder EmptyString suspendedAt (audioChunk "0.5s" false) st) = st
  /\ isAudioPlaying (performCheckAndAct EmptyString suspendedAt st) = true
  /\ actionsRun (performCheckAndAct EmptyString suspendedAt st) = [7%nat].
Proof.
  destruct (sink_not_running_drops_chunks_and_completes scenarioDecoder)
    as (Hdrop & Hcheck).
  destruct (Hdrop EmptyString (Some {| state := suspended; currentTime := 10.5 |})
              (audioChunk "0.5s" false) (setPendingAction 20000 7%nat afterTwoChunks)
              eq_refl)
    as (_ & _ & _ & _ & Hsame).
  destruct (Hcheck EmptyString (Some {| state := suspended; currentTime := 10.5 |})
              (setPendingAction 20000 7%nat afterTwoChunks) eq_refl)
    as (Hflag & _ & _ & _ & Hran).
  split; [exact (Hsame eq_refl) | ].
  split; [rewrite Hflag; vm_compute; reflexivity | ].
  rewrite Hran. vm_compute. reflexivity.
Defined.

(** ** The paper-cut filter on a two-pixel image *)

Lemma posterize_keeps_length_and_alpha_witness :
  length (PaperCut.posterize twoPixels 5 0.12 1.08) = 8%nat
  /\ PaperCut.posterize twoPixels 5 0.12 1.08 !! 7%nat = Some 128%Z.
Proof.
  destruct (posterize_keeps_length_and_alpha twoPixels 5 0.12 1.08) as [Hlen Halpha].
  split; [exact Hlen | exact (Halpha 7%nat eq_refl)].
Defined.

Lemma twoPixels_isByte : Forall PaperCut.isByte twoPixels.
Proof. repeat constructor; discriminate. Defined.

Lemma posterize_lands_on_the_palette_witness :
  Forall PaperCut.isByte twoPixels
  /\ PaperCut.posterize twoPixels 2 0.12 1.08 !! 0%nat = Some 255%Z
  /\ In 255%Z (PaperCut.palette 2)
  /\ (255 = 0 \/ 255 = 255)%Z.
Proof.
  split; [exact twoPixels_isByte | ].
  split; [vm_compute; reflexivity | ].
  destruct (posterize_lands_on_the_palette twoPixels 2 0.12 1.08 0%nat 255%Z
              twoPixels_isByte ltac:(discriminate) ltac:(vm_compute; reflexivity))
    as [Hin Htwo].
  split; [exact Hin | apply Htwo; discriminate].
Defined.

Lemma alphaAt_stays_in_bounds_witness :
  PaperCut.alphaAt (twoPixels ++ twoPixels) 2 2 2 1 = Some 0%Z
  /\ exists a, PaperCut.alphaAt (twoPixels ++ twoPixels) 2 2 1 1 = Some a
               /\ (twoPixels ++ twoPixels) !! 15%nat = Some a.
Proof.
  destruct (alphaAt_stays_in_bounds (twoPixels ++ twoPixels) 2 2 2 1
              ltac:(lia) ltac:(lia) eq_refl) as [Hout _].
  destruct (alphaAt_stays_in_bounds (twoPixels ++ twoPixels) 2 2 1 1
              ltac:(lia) ltac:(lia) eq_refl) as [_ Hin].
  split; [apply Hout; lia | apply Hin; lia].
Defined.

(** ** The asset loader when the ball image fails *)

Lemma all_is_decided_by_five_reports_witness :
  GameAssets.all
    (GameAssets.assetsLoaded
       (GameAssets.reports true (take 4 ballFails) GameAssets.initialAssets)) = false
  /\ GameAssets.all
       (GameAssets.assetsLoaded
          (GameAssets.reports true ballFails GameAssets.initialAssets))
     = forallb snd ballFails.
Proof.
  destruct all_is_decided_by_five_reports as [Hbefore Hfive].
  split.
  - apply Hbefore. vm_compute. lia.
  - apply (Hfive true ballFails); reflexivity.
Defined.

Lemma canvases_are_built_once_at_the_fifth_report_witness :
  GameAssets.processed (GameAssets.reports true ballFails GameAssets.initialAssets) = true
  /\ GameAssets.setProcessedCalls
       (GameAssets.reports true (ballFails ++ ballFails) GameAssets.initialAssets)
     = GameAssets.setProcessedCalls
         (GameAssets.reports true ballFails GameAssets.initialAssets).
Proof.
  destruct canvases_are_built_once_at_the_fifth_report as [Honce Hlater].
  split.
  - apply (Honce true ballFails). vm_compute. lia.
  - apply (Hlater true ballFails ballFails). reflexivity.
Defined.

(** ** The canvas with a pitch of 800 by 600 *)

Lemma game_area_covers_the_canvas_witness :
  fst (GameCanvas.onCanvas (GameCanvas.coverScaling 800 600 1600 600) (0, 0)) <= 0
  /\ snd (GameCanvas.onCanvas (GameCanvas.coverScaling 800 600 1600 600) (0, 0)) <= 0
  /\ 1600 <= fst (GameCanvas.onCanvas (GameCanvas.coverScaling 800 600 1600 600) (800, 600))
  /\ 600 <= snd (GameCanvas.onCanvas (GameCanvas.coverScaling 800 600 1600 600) (800, 600)).
Proof.
  destruct (game_area_covers_the_canvas 8 24 10 800 600 1600 600
              eq_refl eq_refl ltac:(discriminate) ltac:(discriminate))
    as [Hcovers _].
  exact Hcovers.
Defined.

Lemma shadow_is_drawn_only_in_the_air_witness :
  exists radiusX radiusY opacity,
    List.filter GameCanvas.isShadow
      (GameCanvas.drawBall 8 24 10 (Some 32) "BALL_IN_PLAY" (Some ballInTheAir))
    = [GameCanvas.Ellipse 400 (300 + 8) radiusX radiusY (GameCanvas.Black opacity)]
    /\ 1.5 <= radiusX /\ 0.7 <= radiusY
    /\ 0 <= opacity /\ opacity < 0.4
    /\ (60 <= 30 -> opacity == 0).
Proof.
  exact (proj2 (shadow_is_drawn_only_in_the_air 8 24 10 (Some 32) "BALL_IN_PLAY"
                  ballInTheAir) eq_refl).
Defined.

Lemma ball_is_drawn_once_and_on_top_witness :
  exists before last,
    GameCanvas.drawBall 8 24 10 (Some 32) "BALL_IN_PLAY" (Some ballInTheAir)
    = before ++ [last]
    /\ List.filter GameCanvas.isBall before = []
    /\ match last with
       | GameCanvas.DrawImage dx dy dWidth dHeight =>
           GameCanvas.spriteReady (Some 32) = true
           /\ dWidth = dHeight
           /\ dx + dWidth / 2 == 400
           /\ dy + dHeight / 2 == 300 - 30
           /\ 24 <= dWidth
           /\ 2 * (8 + 30 * 0.5) <= dWidth
       | GameCanvas.Arc x y radius GameCanvas.BALL_FALLBACK_COLOR =>
           GameCanvas.spriteReady (Some 32) = false
           /\ x = 400
           /\ y = 300 - 30
           /\ radius = 8 + 30 * 0.5
       | _ => False
       end.
Proof.
  exact (ball_is_drawn_once_and_on_top 8 24 10 (Some 32) "BALL_IN_PLAY" ballInTheAir).
Defined.

Lemma trail_dots_fade_towards_the_oldest_point_witness :
  In secondTrailDot
    (GameCanvas.drawBall 8 24 10 (Some 32) "BALL_IN_PLAY" (Some ballInTheAir))
  /\ exists trail index p radius opacity,
      GameCanvas.Ball.trail ballInTheAir = Some trail
      /\ trail !! index = Some p
      /\ (0 < index)%nat
      /\ secondTrailDot
         = GameCanvas.Arc (GameCanvas.TrailPoint.x p)
             (GameCanvas.TrailPoint.y p - GameCanvas.TrailPoint.z p) radius
             (GameCanvas.White opacity)
      /\ 0.5 < radius
      /\ 0 < opacity
      /\ (inject_Z (Z.of_nat (length trail)) <= 10 ->
          radius < GameCanvas.TrailPoint.radius p /\ opacity < 0.5).
Proof.
  assert (Hin : In secondTrailDot
            (GameCanvas.drawBall 8 24 10 (Some 32) "BALL_IN_PLAY" (Some ballInTheAir))).
  { right. left. reflexivity. }
  split; [exact Hin | ].
  exact (proj2 (trail_dots_fade_towards_the_oldest_point 8 24 10 (Some 32)
                  "BALL_IN_PLAY" ballInTheAir secondTrailDot eq_refl Hin eq_refl)).
Defined.

(** ** The key gate when the connection is refused *)

Lemma key_error_closes_the_gate_witness :
  CricketGame.screen
    (foldl (fun g e => CricketGame.deliver e g)
       {| CricketGame.apiKeyReady := true; CricketGame.apiKeyError := false |}
       (drop (length (effects initialHook))
          (effects (fst (connectRejected "Requested entity was not found." initialHook)))))
    "BOWLING"
  = CricketGame.ApiKeyOverlay true.
Proof.
  exact (key_error_closes_the_gate "Requested entity was not found." initialHook
           {| CricketGame.apiKeyReady := true; CricketGame.apiKeyError := false |}
           "BOWLING").
Defined.

Lemma at_most_one_overlay_is_shown_witness :
  CricketGame.screen
    {| CricketGame.apiKeyReady := true; CricketGame.apiKeyError := false |} "BOWLING"
  = CricketGame.Game false false true true
  /\ (GameCanvas.ballIsShown "BOWLING" = true -> false = false /\ false = false).
Proof.
  split; [reflexivity | ].
  apply (at_most_one_overlay_is_shown
           {| CricketGame.apiKeyReady := true; CricketGame.apiKeyError := false |}
           "BOWLING" false false true true eq_refl).
Defined.
